(** * Content normalization pipeline of the Carrabis blog archive

    A shallow embedding of the three functions of [app.py] that turn a stored
    post into display markup:

    - [clean_body_text]   (the junk-pattern matcher, regular expressions),
    - [sanitize_html]     (the markup sanitizer, a BeautifulSoup tree rewrite),
    - [get_display_html]  (the content selector).

    Python strings are sequences of Unicode code points; they are modelled as
    lists of [N].  The regular expressions of the source are interpreted by a
    backtracking matcher that follows the priority order of Python's [re]
    (greedy before lazy alternatives, leftmost start first). *)

From Stdlib Require Import String Ascii.
From Stdlib Require Import List NArith ZArith Arith Bool Lia.
Import ListNotations.

Set Implicit Arguments.

(** ** Python strings *)

Definition char := N.
Definition text := list char.

(** A Rocq string literal read as a Python string (all literals of the source
    that are written this way are ASCII). *)
Definition py (s : string) : text :=
  List.map N_of_ascii (list_ascii_of_string s).

Definition nl : char := 10%N.

Definition char_eqb (a b : char) : bool := N.eqb a b.

Fixpoint text_eqb (a b : text) : bool :=
  match a, b with
  | [], [] => true
  | x :: a', y :: b' => char_eqb x y && text_eqb a' b'
  | _, _ => false
  end.

(** Python truthiness of a string: [if s:]. *)
Definition truthy (s : text) : bool :=
  match s with [] => false | _ :: _ => true end.

(** [str.isspace] on one code point, which is also what [\s] matches in a
    [str] pattern and what [strip] removes (CPython's
    [_PyUnicode_IsWhitespace]). *)
Definition is_space (c : char) : bool :=
  ((9 <=? c) && (c <=? 13) || (28 <=? c) && (c <=? 32)
   || (c =? 133) || (c =? 160) || (c =? 5760)
   || (8192 <=? c) && (c <=? 8202)
   || (c =? 8232) || (c =? 8233) || (c =? 8239) || (c =? 8287)
   || (c =? 12288))%N.

(** [s.lstrip()] *)
Fixpoint lstrip (s : text) : text :=
  match s with
  | [] => []
  | c :: s' => if is_space c then lstrip s' else s
  end.

(** [s.rstrip()] *)
Fixpoint rstrip (s : text) : text :=
  match s with
  | [] => []
  | c :: s' =>
      match rstrip s' with
      | [] => if is_space c then [] else [c]
      | r => c :: r
      end
  end.

(** [s.strip()] *)
Definition strip (s : text) : text := rstrip (lstrip s).

(** [s.startswith(p)], returning what follows the prefix. *)
Fixpoint strip_prefix (p s : text) : option text :=
  match p, s with
  | [], _ => Some s
  | a :: p', b :: s' => if char_eqb a b then strip_prefix p' s' else None
  | _ :: _, [] => None
  end.

(** [s.split(sep)] for a non-empty separator: the text is cut at the leftmost
    occurrence of [sep], and scanning resumes after it.  [skip] counts the
    characters of a separator that was just recognised and that are still to be
    passed over; [cur] is the current segment, reversed. *)
Fixpoint split_go (sep : text) (skip : nat) (cur : text) (s : text)
  : list text :=
  match s with
  | [] => [rev cur]
  | c :: s' =>
      match skip with
      | S k => split_go sep k cur s'
      | O =>
          match strip_prefix sep s with
          | Some _ => rev cur :: split_go sep (length sep - 1) [] s'
          | None => split_go sep 0 (c :: cur) s'
          end
      end
  end.

Definition split (sep s : text) : list text := split_go sep 0 [] s.

(** [html.escape(s)] with its default [quote=True]. *)
Definition escape_char (c : char) : text :=
  if (c =? 38)%N then py "&amp;"
  else if (c =? 60)%N then py "&lt;"
  else if (c =? 62)%N then py "&gt;"
  else if (c =? 34)%N then py "&quot;"
  else if (c =? 39)%N then py "&#x27;"
  else [c].

Definition escape (s : text) : text := flat_map escape_char s.

(** ** Regular expressions

    The fragment of Python's [re] syntax that the source uses: sequences of
    single-character items, each with a quantifier, and the end anchor.  The
    one alternation of the source ([JUNK_PATTERN]) is a list of such
    sequences. *)

Inductive cclass : Type :=
| Lit (c : char)   (* a literal character *)
| Space            (* \s *)
| Word             (* \w *)
| Digit            (* \d *)
| Dot.             (* . *)

Inductive quant : Type :=
| Once             (* x *)
| Many0            (* x* *)
| Many1            (* x+ *)
| Lazy0            (* x*? *)
| Maybe            (* x? *)
| Exactly (n : nat). (* x{n} *)

Inductive atom : Type :=
| Q (q : quant) (c : cclass)
| Eol.             (* $ *)

Definition regex := list atom.

Record flags : Type := { ignorecase : bool; dotall : bool }.

Definition no_flags : flags := {| ignorecase := false; dotall := false |}.
Definition flag_I : flags := {| ignorecase := true; dotall := false |}.
Definition flag_IS : flags := {| ignorecase := true; dotall := true |}.

Definition lit (s : string) : regex := List.map (fun c => Q Once (Lit c)) (py s).

Definition ascii_lower (c : char) : char :=
  if ((65 <=? c) && (c <=? 90))%N then (c + 32)%N else c.

Definition ascii_word (c : char) : bool :=
  ((48 <=? c) && (c <=? 57) || (65 <=? c) && (c <=? 90)
   || (97 <=? c) && (c <=? 122) || (c =? 95))%N.

Definition ascii_digit (c : char) : bool := ((48 <=? c) && (c <=? 57))%N.

Section Pipeline.

(** The Unicode character database of the Python runtime, outside ASCII:
    which code points [\w] and [\d] match, and which code points a pattern
    letter matches under [re.IGNORECASE].  On ASCII the tables are the
    ones written out above. *)
Variable uni_word : char -> bool.
Variable uni_digit : char -> bool.
Variable uni_caseless : char -> char -> bool.

Definition is_word (c : char) : bool :=
  if (c <? 128)%N then ascii_word c else uni_word c.

Definition is_digit (c : char) : bool :=
  if (c <? 128)%N then ascii_digit c else uni_digit c.

Definition lit_match (fl : flags) (p c : char) : bool :=
  if ignorecase fl then
    if (c <? 128)%N then char_eqb (ascii_lower p) (ascii_lower c)
    else uni_caseless p c
  else char_eqb p c.

Definition cmatch (fl : flags) (k : cclass) (c : char) : bool :=
  match k with
  | Lit p => lit_match fl p c
  | Space => is_space c
  | Word => is_word c
  | Digit => is_digit c
  | Dot => dotall fl || negb (char_eqb c nl)
  end.

(** Greedy repetition: as many characters as possible first, giving one
    back at a time while the rest of the pattern fails. *)
Fixpoint greedy (p : char -> bool) (k : text -> option text) (s : text)
  : option text :=
  match s with
  | c :: s' =>
      if p c then
        match greedy p k s' with
        | Some r => Some r
        | None => k s
        end
      else k s
  | [] => k []
  end.

(** Lazy repetition: as few characters as possible first. *)
Fixpoint lazy (p : char -> bool) (k : text -> option text) (s : text)
  : option text :=
  match k s with
  | Some r => Some r
  | None =>
      match s with
      | c :: s' => if p c then lazy p k s' else None
      | [] => None
      end
  end.

Fixpoint exactly (n : nat) (p : char -> bool) (k : text -> option text)
  (s : text) : option text :=
  match n with
  | O => k s
  | S n' =>
      match s with
      | c :: s' => if p c then exactly n' p k s' else None
      | [] => None
      end
  end.

Definition quantified (q : quant) (p : char -> bool)
  (k : text -> option text) (s : text) : option text :=
  match q with
  | Once => exactly 1 p k s
  | Many0 => greedy p k s
  | Many1 =>
      match s with
      | c :: s' => if p c then greedy p k s' else None
      | [] => None
      end
  | Lazy0 => lazy p k s
  | Maybe =>
      match s with
      | c :: s' =>
          if p c then
            match k s' with Some r => Some r | None => k s end
          else k s
      | [] => k []
      end
  | Exactly n => exactly n p k s
  end.

(** [$] without [re.MULTILINE]: at the end of the string, or just before a
    newline that is its last character. *)
Definition at_eol (s : text) : bool :=
  match s with
  | [] => true
  | [c] => char_eqb c nl
  | _ => false
  end.

(** The match of [r] that starts at the head of [s], if there is one: the
    text that follows the match. *)
Fixpoint match_here (fl : flags) (r : regex) : text -> option text :=
  match r with
  | [] => fun s => Some s
  | Eol :: r' => fun s => if at_eol s then match_here fl r' s else None
  | Q q c :: r' => quantified q (cmatch fl c) (match_here fl r')
  end.

(** [re.search]: the leftmost position with a match; the result is
    [match.start()] and the text after [match.end()]. *)
Fixpoint search_from (fl : flags) (r : regex) (i : nat) (s : text)
  : option (nat * text) :=
  match match_here fl r s with
  | Some rest => Some (i, rest)
  | None =>
      match s with
      | [] => None
      | _ :: s' => search_from fl r (S i) s'
      end
  end.

Definition search (fl : flags) (r : regex) (s : text) : option (nat * text) :=
  search_from fl r 0 s.

(** [re.sub(r, repl, s)] for a literal replacement: every non-overlapping
    match, leftmost first, is replaced.  [fuel] bounds the number of
    scanning steps; [S (length s)] is enough. *)
Fixpoint sub_go (fuel : nat) (fl : flags) (r : regex) (repl s : text) : text :=
  match fuel with
  | O => s
  | S f =>
      match match_here fl r s with
      | Some rest =>
          if length rest <? length s then repl ++ sub_go f fl r repl rest
          else
            match s with
            | [] => repl
            | c :: s' => repl ++ c :: sub_go f fl r repl s'
            end
      | None =>
          match s with
          | [] => []
          | c :: s' => c :: sub_go f fl r repl s'
          end
      end
  end.

Definition re_sub (fl : flags) (r : regex) (repl s : text) : text :=
  sub_go (S (length s)) fl r repl s.


(** ** The junk-pattern matcher: [clean_body_text] *)

Definition sp0 : regex := [Q Many0 Space].   (* \s* *)
Definition sp1 : regex := [Q Many1 Space].   (* \s+ *)
Definition w1 : regex := [Q Many1 Word].     (* \w+ *)
Definition d1 : regex := [Q Many1 Digit].    (* \d+ *)

(** The list [cut_patterns], in the order of the source. *)
Definition cut_patterns : list regex :=
  [ lit "Follow" ++ sp1 ++ lit "@" ++ w1 ++ sp1 ++ lit "Share" ++ sp1
      ++ lit "Tweet";
    lit "Share" ++ sp1 ++ lit "Tweet" ++ sp1 ++ lit "React" ++ sp0
      ++ lit "(" ++ d1 ++ lit ")";
    lit "Top " ++ d1 ++ lit " Comments";
    d1 ++ lit " comment" ++ [Q Maybe (Lit 115%N)] ++ sp1 ++ lit "Sort by";
    lit "Comments will close out";
    lit "Thumbs Up" ++ sp1 ++ lit "Thumbs Down" ++ sp1 ++ lit "by" ++ sp1;
    lit "Up:" ++ sp0 ++ d1 ++ sp0 ++ lit "Down:" ++ sp0 ++ d1;
    lit "Leave a Comment";
    lit "Tweets" ++ sp1 ++ [Q Lazy0 Dot] ++ lit "http://t.co/";
    lit "Tour Dates" ++ sp1;
    lit "Featured Video" ++ sp1;
    lit "View more Videos";
    [Q Once (Lit 194%N); Q Once (Lit 169%N)] ++ sp0 ++ [Q (Exactly 4) Digit]
      ++ sp0 ++ lit "Barstool";
    lit "Disclaimer" ++ sp0 ++ lit "|" ++ sp0 ++ lit "Copyright";
    lit "Media Kit" ++ sp0 ++ [Eol];
    lit "Barstool Sports" ++ sp0 ++ lit "|" ++ sp0 ++ lit "Disclaimer" ].

(** [\s*By\s+\w+\s+posted\s+\w+\s+\d+.*$], used with [re.IGNORECASE]. *)
Definition byline_pattern : regex :=
  sp0 ++ lit "By" ++ sp1 ++ w1 ++ sp1 ++ lit "posted" ++ sp1 ++ w1 ++ sp1
    ++ d1 ++ [Q Many0 Dot; Eol].

(** [(Home\s+The Store\s+BarstoolTV\s+.*?Barstool Sports\s+All Categories\s+)],
    used with [re.IGNORECASE | re.DOTALL]. *)
Definition nav_pattern : regex :=
  lit "Home" ++ sp1 ++ lit "The Store" ++ sp1 ++ lit "BarstoolTV" ++ sp1
    ++ [Q Lazy0 Dot] ++ lit "Barstool Sports" ++ sp1 ++ lit "All Categories"
    ++ sp1.

(** The loop over [cut_patterns]: the first pattern of the list that matches
    cuts the text at [match.start()], and the loop is left ([break]). *)
Fixpoint cut_loop (pats : list regex) (t : text) : text :=
  match pats with
  | [] => t
  | p :: ps =>
      match search no_flags p t with
      | Some (start, _) => rstrip (firstn start t)
      | None => cut_loop ps t
      end
  end.

Definition strip_byline (t : text) : text :=
  rstrip (re_sub flag_I byline_pattern [] t).

Definition strip_nav (t : text) : text :=
  match match_here flag_IS nav_pattern t with
  | Some rest => lstrip rest
  | None => t
  end.

(** [clean_body_text] on a [str] argument. *)
Definition clean_body_str (t : text) : text :=
  if truthy t then strip (strip_nav (strip_byline (cut_loop cut_patterns t)))
  else t.

(** [clean_body_text]: [None] is falsy and is returned as it is. *)
Definition clean_body_text (v : option text) : option text :=
  match v with
  | None => None
  | Some t => Some (clean_body_str t)
  end.

(** ** The text tier of [get_display_html] *)

Definition split_paragraphs (body_text : text) : list text :=
  let paragraphs := split [nl; nl] body_text in
  if length paragraphs <=? 1 then split [nl] body_text else paragraphs.

(** [''.join(f'<p>{html_lib.escape(p.strip())}</p>' for p in paragraphs
             if p.strip())] *)
Definition render_paragraphs (paragraphs : list text) : text :=
  concat
    (List.map (fun p => py "<p>" ++ escape (strip p) ++ py "</p>")
       (filter (fun p => truthy (strip p)) paragraphs)).

Definition no_content : text := py "No content available.".

(** [x or d] on an optional string. *)
Definition or_else (v : option text) (d : text) : text :=
  match v with
  | Some s => if truthy s then s else d
  | None => d
  end.

Definition text_tier (body_text : option text) : text :=
  render_paragraphs
    (split_paragraphs (clean_body_str (or_else body_text no_content))).

(** ** The markup sanitizer: [sanitize_html]

    A parsed document is a forest of tags and strings.  BeautifulSoup keeps
    an attribute either as a string or, for the multi-valued attributes such
    as [class], as a list of strings; its strings come in several kinds
    ([NavigableString] and its subclasses).

    The loops of [sanitize_html] mutate the tree while they walk a list of
    tag objects that [find_all] computed beforehand, so object identity
    matters: a tree carries an identity [i] at every object.  A document as
    the parser returns it carries no identities ([I := unit]); [alloc]
    numbers its objects. *)

Inductive attr_value : Type :=
| AStr (s : text)
| AList (l : list text).

Definition attrs_t := list (text * attr_value).

Inductive skind : Type :=
| SPlain | SComment | SCData | SDoctype | SDeclaration | SProcessing.

Inductive tree (I : Type) : Type :=
| Tag (i : I) (name : text) (attrs : attrs_t) (children : list (tree I))
| Str (i : I) (kind : skind) (s : text).

Arguments Str {I} i kind s.

Definition node := tree unit.
Definition obj := tree nat.

(** What an object is apart from its children. *)
Inductive label : Type :=
| LTag (name : text) (attrs : attrs_t)
| LStr (kind : skind) (s : text).

Definition ident {I} (t : tree I) : I :=
  match t with Tag i _ _ _ => i | Str i _ _ => i end.

Definition label_of {I} (t : tree I) : label :=
  match t with Tag _ n a _ => LTag n a | Str _ k s => LStr k s end.

(** Every object of a tree, in document order ([Tag.descendants], with the
    tree's root first). *)
Fixpoint heads {I} (t : tree I) : list (I * label) :=
  (ident t, label_of t)
    :: match t with
       | Tag _ _ _ cs => flat_map heads cs
       | Str _ _ _ => []
       end.

Definition descendants {I} (f : list (tree I)) : list (I * label) :=
  flat_map heads f.

(** Removal of every subtree whose root satisfies [c]. *)
Fixpoint remove {I} (c : I -> label -> bool) (t : tree I) : list (tree I) :=
  if c (ident t) (label_of t) then []
  else
    match t with
    | Tag i n a cs => [Tag i n a (flat_map (remove c) cs)]
    | Str _ _ _ => [t]
    end.

(** Replacement of every tag that satisfies [c] by its children, in place. *)
Fixpoint unwrap {I} (c : I -> label -> bool) (t : tree I) : list (tree I) :=
  match t with
  | Tag i n a cs =>
      let cs' := flat_map (unwrap c) cs in
      if c i (LTag n a) then cs' else [Tag i n a cs']
  | Str _ _ _ => [t]
  end.

(** Replacement of the attributes of every tag. *)
Fixpoint amap {I} (u : I -> text -> attrs_t -> attrs_t) (t : tree I) : tree I :=
  match t with
  | Tag i n a cs => Tag i n (u i n a) (List.map (amap u) cs)
  | Str _ _ _ => t
  end.

(** Allocation of the objects of a parsed document: identities are handed out
    in document order. *)
Fixpoint alloc (n : nat) (t : node) : obj * nat :=
  match t with
  | Tag _ name attrs cs =>
      let fix alloc_list (n : nat) (l : list node) : list obj * nat :=
        match l with
        | [] => ([], n)
        | c :: l' =>
            let (c', n1) := alloc n c in
            let (l'', n2) := alloc_list n1 l' in
            (c' :: l'', n2)
        end in
      let (cs', n') := alloc_list (S n) cs in
      (Tag n name attrs cs', n')
  | Str _ k s => (Str n k s, S n)
  end.

Fixpoint alloc_forest (n : nat) (l : list node) : list obj * nat :=
  match l with
  | [] => ([], n)
  | c :: l' =>
      let (c', n1) := alloc n c in
      let (l'', n2) := alloc_forest n1 l' in
      (c' :: l'', n2)
  end.

(** The document behind a tree of objects. *)
Fixpoint view {I} (t : tree I) : node :=
  match t with
  | Tag _ n a cs => Tag tt n a (List.map view cs)
  | Str _ k s => Str tt k s
  end.

(** *** The operations of BeautifulSoup on one object *)

(** The object a reference points to, if it is still in the tree. *)
Definition deref (i : nat) (f : list obj) : option (nat * label) :=
  find (fun h => Nat.eqb (fst h) i) (descendants f).

(** [tag.decompose()] and [string.extract()]: the object leaves the tree with
    everything below it. *)
Definition decompose (i : nat) (f : list obj) : list obj :=
  flat_map (remove (fun j _ => Nat.eqb j i)) f.

(** [tag.unwrap()] *)
Definition unwrap_tag (i : nat) (f : list obj) : list obj :=
  flat_map (unwrap (fun j _ => Nat.eqb j i)) f.

(** Assignment to [tag.attrs]. *)
Definition set_attrs (i : nat) (a : attrs_t) (f : list obj) : list obj :=
  List.map (amap (fun j _ old => if Nat.eqb j i then a else old)) f.

Definition is_tag (h : nat * label) : bool :=
  match snd h with LTag _ _ => true | LStr _ _ => false end.

Definition mem_text (x : text) (l : list text) : bool := existsb (text_eqb x) l.

(** [soup.find_all(True)]: references to all tags, in document order. *)
Definition find_all_tags (f : list obj) : list nat :=
  List.map fst (filter is_tag (descendants f)).

(** [soup.find_all([name, ...])] *)
Definition find_all_named (names : list text) (f : list obj) : list nat :=
  List.map fst
    (filter (fun h => match snd h with
                      | LTag n _ => mem_text n names
                      | LStr _ _ => false
                      end) (descendants f)).

(** [soup.find_all(string=lambda text: isinstance(text, Comment))] *)
Definition find_all_comments (f : list obj) : list nat :=
  List.map fst
    (filter (fun h => match snd h with
                      | LStr SComment _ => true
                      | _ => false
                      end) (descendants f)).

(** [tag.get(key)] on the attribute dictionary. *)
Fixpoint get_attr (key : text) (a : attrs_t) : option attr_value :=
  match a with
  | [] => None
  | (k, v) :: a' => if text_eqb k key then Some v else get_attr key a'
  end.

(** [del tag[key]] *)
Definition del_attr (key : text) (a : attrs_t) : attrs_t :=
  filter (fun kv => negb (text_eqb (fst kv) key)) a.

(** [' '.join(l)] *)
Fixpoint join_space (l : list text) : text :=
  match l with
  | [] => []
  | [x] => x
  | x :: l' => x ++ 32%N :: join_space l'
  end.

(** *** The constants of the sanitizer *)

Definition ALLOWED_TAGS : list text :=
  List.map py
    [ "p"; "br"; "b"; "i"; "em"; "strong"; "a"; "img"; "h1"; "h2"; "h3";
      "h4"; "h5"; "h6"; "ul"; "ol"; "li"; "blockquote"; "pre"; "code";
      "table"; "thead"; "tbody"; "tr"; "td"; "th"; "hr"; "span"; "div";
      "figure"; "figcaption"; "video"; "source"; "iframe" ]%string.

Definition ALLOWED_ATTRS : list (text * list text) :=
  List.map (fun e => (py (fst e), List.map py (snd e)))
    [ ("a", ["href"; "target"; "rel"]);
      ("img", ["src"; "alt"; "width"; "height"]);
      ("iframe", ["src"; "width"; "height"; "frameborder"; "allowfullscreen"]);
      ("video", ["src"; "controls"; "width"; "height"]);
      ("source", ["src"; "type"]);
      ("td", ["colspan"; "rowspan"]);
      ("th", ["colspan"; "rowspan"]) ]%string.

(** [ALLOWED_ATTRS.get(name, set())] *)
Fixpoint lookup_attrs (name : text) (d : list (text * list text)) : list text :=
  match d with
  | [] => []
  | (k, v) :: d' => if text_eqb k name then v else lookup_attrs name d'
  end.

Definition allowed_attrs (name : text) : list text :=
  lookup_attrs name ALLOWED_ATTRS.

(** The alternatives of [JUNK_PATTERN], compiled with [re.IGNORECASE]. *)
Definition JUNK_PATTERN : list regex :=
  List.map lit
    [ "sidebar"; "nav"; "menu"; "footer"; "header"; "comment"; "social";
      "share"; "related"; "newsletter"; "popup"; "modal"; "overlay"; "ad-";
      "advertisement"; "cookie"; "wm-ipp"; "wayback"; "toolbar";
      "donate" ]%string.

(** The tag names of the first loop. *)
Definition NUKED_TAGS : list text :=
  List.map py
    [ "script"; "style"; "nav"; "header"; "footer"; "noscript"; "link";
      "meta"; "head" ]%string.

(** Whether [re.search] with an alternation finds a match: at each position
    in turn, the alternatives are tried in order. *)
Fixpoint search_alt (fl : flags) (alts : list regex) (s : text) : bool :=
  if existsb (fun r => match match_here fl r s with
                       | Some _ => true
                       | None => false
                       end) alts
  then true
  else
    match s with
    | [] => false
    | _ :: s' => search_alt fl alts s'
    end.

(** Python's [str] of a list of strings (the [repr] of the list), which the
    source applies to an [id] attribute should it ever be a list. *)
Variable str_of_list : list text -> text.

Definition truthy_value (v : attr_value) : bool :=
  match v with
  | AStr s => truthy s
  | AList l => match l with [] => false | _ :: _ => true end
  end.

(** The test of the second loop on the attributes of a tag. *)
Definition junk_attrs (a : attrs_t) : bool :=
  let classes :=
    match get_attr (py "class") a with
    | None => join_space []
    | Some (AList l) => join_space l
    | Some (AStr s) => if truthy s then s else []
    end in
  let tag_id :=
    match get_attr (py "id") a with
    | None => []
    | Some v =>
        if truthy_value v
        then match v with AStr s => s | AList l => str_of_list l end
        else []
    end in
  search_alt flag_I JUNK_PATTERN classes || search_alt flag_I JUNK_PATTERN tag_id.

(** The inner loop over [list(tag.attrs)]. *)
Definition strip_attrs (name : text) (a : attrs_t) : attrs_t :=
  let allowed := allowed_attrs name in
  fold_left
    (fun cur attr => if mem_text attr allowed then cur else del_attr attr cur)
    (List.map fst a) a.

(** *** The five loops *)

(** [for tag in soup.find_all([...]): tag.decompose()] *)
Definition nuke_loop (f : list obj) : list obj :=
  fold_left (fun cur i => decompose i cur) (find_all_named NUKED_TAGS f) f.

(** The second loop; a tag that an earlier iteration decomposed has
    [tag.attrs is None] and is skipped. *)
Definition junk_step (cur : list obj) (i : nat) : list obj :=
  match deref i cur with
  | Some (_, LTag _ a) => if junk_attrs a then decompose i cur else cur
  | _ => cur
  end.

Definition junk_loop (f : list obj) : list obj :=
  fold_left junk_step (find_all_tags f) f.

(** [for comment in soup.find_all(string=...): comment.extract()] *)
Definition comment_loop (f : list obj) : list obj :=
  fold_left (fun cur i => decompose i cur) (find_all_comments f) f.

(** [for tag in soup.find_all(True): if tag.name not in ALLOWED_TAGS:
    tag.unwrap()] *)
Definition unwrap_step (cur : list obj) (i : nat) : list obj :=
  match deref i cur with
  | Some (_, LTag n _) => if mem_text n ALLOWED_TAGS then cur else unwrap_tag i cur
  | _ => cur
  end.

Definition unwrap_loop (f : list obj) : list obj :=
  fold_left unwrap_step (find_all_tags f) f.

(** The last loop. *)
Definition attrs_step (cur : list obj) (i : nat) : list obj :=
  match deref i cur with
  | Some (_, LTag n a) => set_attrs i (strip_attrs n a) cur
  | _ => cur
  end.

Definition attrs_loop (f : list obj) : list obj :=
  fold_left attrs_step (find_all_tags f) f.

(** The tree rewrite of [sanitize_html], from the parsed document to the
    document that is serialized. *)
Definition sanitize_tree (doc : list node) : list node :=
  let soup := fst (alloc_forest 0 doc) in
  List.map view
    (attrs_loop (unwrap_loop (comment_loop (junk_loop (nuke_loop soup))))).

(** The HTML library: [BeautifulSoup(raw_html, "html.parser")] and
    [str(soup)].  [None] stands for a raised exception. *)
Variable parse : text -> option (list node).
Variable decode : list node -> option text.

(** [sanitize_html]; [None] stands for a raised exception. *)
Definition sanitize_html (raw_html : text) : option text :=
  if truthy raw_html then
    match parse raw_html with
    | None => None
    | Some doc =>
        match decode (sanitize_tree doc) with
        | None => None
        | Some out =>
            let result := strip out in
            Some (if 50 <? length result then result else [])
        end
    end
  else Some [].

(** ** The content selector: [get_display_html] *)

(** The fields of a post that the selector reads; [None] is a key that is
    absent or whose value is [None] ([post.get] returns [None] for both). *)
Record post : Type := {
  body_html : option text;
  body_text : option text;
  era : option text
}.

Definition get_display_html (p : post) : text :=
  let html := or_else (body_html p) [] in
  let e := or_else (era p) [] in
  if text_eqb e (py "nextjs_v2") && truthy html then html
  else
    let fallback := text_tier (body_text p) in
    if truthy html then
      match sanitize_html html with
      | Some cleaned => if truthy cleaned then cleaned else fallback
      | None => fallback
      end
    else fallback.

(** * Vocabulary of the properties *)

(** ** Strings and the matcher *)

(** [sep.join(l)] *)
Fixpoint join (sep : text) (l : list text) : text :=
  match l with
  | [] => []
  | [x] => x
  | x :: l' => x ++ sep ++ join sep l'
  end.

(** A text without a newline character. *)
Definition one_line (s : text) : Prop := Forall (fun c => c <> nl) s.

(** What a continuation returns is a suffix of what it was given. *)
Definition returns_suffix (k : text -> option text) : Prop :=
  forall s rest, k s = Some rest -> exists a, s = a ++ rest.

(** The rendering of the text tier as the specification words it: blank
    segments are dropped and each other segment is escaped and wrapped as it
    stands. *)
Definition render_paragraphs_untrimmed (paragraphs : list text) : text :=
  concat
    (List.map (fun p => py "<p>" ++ escape p ++ py "</p>")
       (filter (fun p => truthy (strip p)) paragraphs)).

(** ** Trees *)

Inductive subseq {A : Type} : list A -> list A -> Prop :=
| subseq_nil : subseq [] []
| subseq_skip x l1 l2 : subseq l1 l2 -> subseq l1 (x :: l2)
| subseq_keep x l1 l2 : subseq l1 l2 -> subseq (x :: l1) (x :: l2).

(** The identities of the objects of a forest, in document order. *)
Definition ids {I} (f : list (tree I)) : list I := List.map fst (descendants f).

(** Identities are handed out consecutively, in document order. *)
Definition numbered (t : node) : Prop :=
  forall n,
    List.map fst (heads (fst (alloc n t))) = seq n (snd (alloc n t) - n)
    /\ n < snd (alloc n t).

(** The tests of the loops, on what an object is. *)
Definition nuked (l : label) : bool :=
  match l with LTag n _ => mem_text n NUKED_TAGS | LStr _ _ => false end.

Definition junk (l : label) : bool :=
  match l with LTag _ a => junk_attrs a | LStr _ _ => false end.

Definition is_comment (l : label) : bool :=
  match l with LStr SComment _ => true | _ => false end.

Definition disallowed (l : label) : bool :=
  match l with
  | LTag n _ => negb (mem_text n ALLOWED_TAGS)
  | LStr _ _ => false
  end.

(** The attributes of a tag named [name] that are on its allow-list. *)
Definition keep_attrs (name : text) (a : attrs_t) : attrs_t :=
  filter (fun kv => mem_text (fst kv) (allowed_attrs name)) a.

(** The label of an object after its attributes were rewritten. *)
Definition relabel (u : text -> attrs_t -> attrs_t) (l : label) : label :=
  match l with LTag n a => LTag n (u n a) | LStr _ _ => l end.

(** The tree rewrite of [sanitize_html] as five passes over the document:
    subtrees of the listed tags are dropped, then subtrees of tags with a
    junk [class] or [id], then comments; tags off the allow-list are replaced
    by their children; attributes off the allow-list are dropped. *)
Definition sanitize_passes (doc : list node) : list node :=
  List.map (amap (fun _ => keep_attrs))
    (flat_map (unwrap (fun _ => disallowed))
       (flat_map (remove (fun _ => is_comment))
          (flat_map (remove (fun _ => junk))
             (flat_map (remove (fun _ => nuked)) doc)))).

(** A label that the sanitizer lets through: a tag of the allow-list whose
    attributes are on the allow-list of the tag, or a string that is not a
    comment. *)
Definition clean_label (l : label) : Prop :=
  match l with
  | LTag n a =>
      In n ALLOWED_TAGS /\ forall k v, In (k, v) a -> In k (allowed_attrs n)
  | LStr k _ => k <> SComment
  end.

Definition sanitized {I} (f : list (tree I)) : Prop :=
  forall h, In h (descendants f) -> clean_label (snd h).


(** A text without a blank line: no two newlines in a row. *)
Fixpoint no_blank_line (t : text) : bool :=
  match t with
  | [] => true
  | c :: t' =>
      match t' with
      | d :: _ => negb (char_eqb nl c && char_eqb nl d)
      | [] => true
      end && no_blank_line t'
  end.

(** A paragraph: a text without a blank line and without a newline at its
    end; it may have single newlines inside. *)
Definition paragraph (p : text) : Prop := no_blank_line (p ++ [nl]) = true.

(** ** Example inputs *)

Definition example_share : text :=
  py "Great game today." ++ [nl; nl] ++ py "Share Tweet React (12)" ++ [nl]
    ++ py "user1: nice post".

Definition example_two_markers : text := py "Leave a Comment Top 5 Comments".

Definition untrimmed_text : text := py "a " ++ [nl; nl] ++ py " b".

Definition long_plain_text : text :=
  py "The quick brown fox jumps over the lazy dog, twice over.".

Definition blank_post : post :=
  {| body_html := None; body_text := Some [32%N]; era := None |}.

Definition junk_only_post : post :=
  {| body_html := None; body_text := Some (py "Leave a Comment");
     era := None |}.

Definition empty_post : post :=
  {| body_html := None; body_text := None; era := None |}.

Definition hello_post : post :=
  {| body_html := Some (py "<p>Hello</p>"); body_text := None;
     era := Some (py "nextjs_v2") |}.

(** An article page: a head, a body with a wrapper that is not on the
    allow-list, a sidebar, a comment and a link with a script handler. *)
Definition example_page : list node :=
  [Tag tt (py "html") []
     [Tag tt (py "head") [] [Tag tt (py "script") [] [Str tt SPlain (py "x")]];
      Tag tt (py "body") [(py "class", AList [py "main"])]
        [Tag tt (py "article") []
           [Tag tt (py "section") []
              [Str tt SPlain (py "a");
               Tag tt (py "p")
                 [(py "id", AStr (py "x")); (py "style", AStr (py "y"))]
                 [Str tt SPlain (py "b")]];
            Str tt SPlain (py "c")];
         Tag tt (py "div") [(py "class", AList [py "x"; py "SideBar-left"])]
           [Tag tt (py "p") [] [Str tt SPlain (py "zz")]];
         Str tt SComment (py "cm");
         Tag tt (py "a")
           [(py "href", AStr (py "u")); (py "onclick", AStr (py "e"));
            (py "rel", AList [py "r"])]
           [Str tt SPlain (py "l")]]]].

Definition example_page_sanitized : list node :=
  [Str tt SPlain (py "a");
   Tag tt (py "p") [] [Str tt SPlain (py "b")];
   Str tt SPlain (py "c");
   Tag tt (py "a") [(py "href", AStr (py "u")); (py "rel", AList [py "r"])]
     [Str tt SPlain (py "l")]].

Definition example_byline : text :=
  py "...final thoughts. By carrabis posted November 24th, 2014 at 10:00 AM".

Definition ad_banner_markup : text :=
  py "<div class=" ++ [39%N] ++ py "ad-banner" ++ [39%N] ++ py "></div>".

Definition ad_banner_doc : list node :=
  [Tag tt (py "div") [(py "class", AList [py "ad-banner"])] []].

Definition ad_banner_post (e : option text) : post :=
  {| body_html := Some ad_banner_markup;
     body_text := Some (py "Real article content here.");
     era := e |}.

(** ** Example runtimes *)

(** A runtime whose character tables hold nothing outside ASCII. *)
Definition ascii_only (c : char) : bool := false.
Definition ascii_caseless (p c : char) : bool := false.
Definition no_list_repr (l : list text) : text := [].

(** An HTML library for plain text: the document is one string, and it is
    serialized as that string. *)
Definition text_only_parse (s : text) : option (list node) :=
  Some [Str tt SPlain s].

Definition text_only_decode (f : list node) : option text :=
  Some match f with
       | [Str _ SPlain s] => s
       | _ => []
       end.

(** BeautifulSoup on the documents that are text without markup
    characters, with or without a document type declaration before it:
    [html.parser] reads the declaration as a [Doctype] string and the text
    as one string, and [str] writes a [Doctype] with a newline after it (its
    [SUFFIX]) and the text as it is.  A text of whitespace only, which
    BeautifulSoup shortens, and every other document are outside this
    partial model, which raises on them. *)
Definition doctype_html : text := py "<!DOCTYPE html>".

Definition plain_chars (s : text) : bool :=
  forallb (fun c => negb ((c =? 60) || (c =? 62) || (c =? 38))%N) s.

Definition plain_text_doc (s : text) : option (list node) :=
  match s with
  | [] => Some []
  | _ :: _ =>
      if plain_chars s && truthy (strip s) then Some [Str tt SPlain s]
      else None
  end.

Definition doctype_parse (s : text) : option (list node) :=
  match strip_prefix doctype_html s with
  | Some rest =>
      match plain_text_doc rest with
      | Some f => Some (Str tt SDoctype (py "html") :: f)
      | None => None
      end
  | None => plain_text_doc s
  end.

Definition doctype_decode (f : list node) : option text :=
  match f with
  | [] => Some []
  | [Str _ SPlain s] => if plain_chars s then Some s else None
  | [Str _ SDoctype d] => Some (py "<!DOCTYPE " ++ d ++ [62%N; nl])
  | [Str _ SDoctype d; Str _ SPlain s] =>
      if plain_chars s then Some (py "<!DOCTYPE " ++ d ++ [62%N; nl] ++ s)
      else None
  | _ => None
  end.





(** An HTML library that knows one document, the junk [div] of the
    specification's example. *)
Definition banner_parse (s : text) : option (list node) :=
  if text_eqb s ad_banner_markup then Some ad_banner_doc else None.

(** * The search, listing and export code

    The remaining functions of [app.py] that compute with strings and
    numbers, and the row loop of [make_deploy_db.py].  SQLite and Streamlit
    are outside the model: [search_posts] is followed up to the statements
    it hands to SQLite, and [main] as the transition of the session state in
    one run of the script, given what was clicked and what the search
    returned. *)

(** ** [_fts_escape] *)

(** Whether the double quote character is [in] the string. *)
Definition has_dquote (s : text) : bool :=
  existsb (fun c => char_eqb c 34%N) s.

(** [s.split()] without a separator: the maximal runs of characters that are
    not whitespace.  [cur] is the current run, reversed. *)
Fixpoint split_ws_go (cur : text) (s : text) : list text :=
  match s with
  | [] => match cur with [] => [] | _ :: _ => [rev cur] end
  | c :: s' =>
      if is_space c then
        match cur with
        | [] => split_ws_go [] s'
        | _ :: _ => rev cur :: split_ws_go [] s'
        end
      else split_ws_go (c :: cur) s'
  end.

Definition split_ws (s : text) : list text := split_ws_go [] s.

(** The word between two double quote characters. *)
Definition quote_word (w : text) : text := 34%N :: w ++ [34%N].

Definition _fts_escape (query : text) : text :=
  if has_dquote query then query
  else join_space (List.map quote_word (filter truthy (split_ws query))).

(** ** [search_posts] *)

Inductive sql_value : Type :=
| SqlText (t : text)
| SqlInt (z : Z).

(** A statement as [conn.execute] receives it. *)
Record statement : Type := { sql : text; params : list sql_value }.

(** A triple-quoted statement of the source: a newline, the lines, and the
    indentation before the closing quotes. *)
Definition template (ls : list text) : text :=
  [nl] ++ concat (List.map (fun l => l ++ [nl]) ls) ++ py "        ".

(** [','.join('?' * n)] *)
Definition placeholders (n : nat) : text :=
  join [44%N] (List.map (fun c => [c]) (repeat 63%N n)).

(** [conf_vals] and [conf_clause]. *)
Definition conf_filter (confidence : text) : list text * text :=
  if text_eqb confidence (py "all") then ([], [])
  else
    let conf_vals := List.map strip (split [44%N] confidence) in
    (conf_vals,
     py "AND p.confidence IN (" ++ placeholders (length conf_vals) ++ py ")").

Definition fts_parts (title_query body_query : text) : list text :=
  (if truthy (strip title_query)
   then [py "title:" ++ _fts_escape (strip title_query)] else [])
  ++ (if truthy (strip body_query)
      then [py "body_text:" ++ _fts_escape (strip body_query)] else []).

Definition fts_match (title_query body_query : text) : text :=
  match fts_parts title_query body_query with
  | [] => []
  | parts => join (py " AND ") parts
  end.

Definition sort_map : list (text * text) :=
  [ (py "Newest first", py "p.date_published DESC");
    (py "Oldest first", py "p.date_published ASC");
    (py "Title A-Z", py "p.title ASC");
    (py "Title Z-A", py "p.title DESC") ].

(** [d.get(key, default)] on a dictionary from strings to strings. *)
Fixpoint dict_get (key : text) (d : list (text * text)) (default : text)
  : text :=
  match d with
  | [] => default
  | (k, v) :: d' => if text_eqb k key then v else dict_get key d' default
  end.

Definition count_fts_sql (conf_clause : text) : text :=
  template
    [ py "            SELECT COUNT(*) FROM posts p";
      py "            JOIN posts_fts fts ON p.id = fts.rowid";
      py "            WHERE p.author = 'Jared Carrabis' " ++ conf_clause;
      py "            AND posts_fts MATCH ?" ].

Definition rows_fts_sql (conf_clause order : text) : text :=
  template
    [ py "            SELECT p.id, p.title, p.date_published, p.confidence, p.match_strategy,";
      py "                   p.wayback_url, p.original_url, substr(p.body_text, 1, 300) as snippet";
      py "            FROM posts p";
      py "            JOIN posts_fts fts ON p.id = fts.rowid";
      py "            WHERE p.author = 'Jared Carrabis' " ++ conf_clause;
      py "            AND posts_fts MATCH ?";
      py "            ORDER BY " ++ order;
      py "            LIMIT ? OFFSET ?" ].

Definition count_plain_sql (conf_clause : text) : text :=
  template
    [ py "            SELECT COUNT(*) FROM posts p";
      py "            WHERE p.author = 'Jared Carrabis' " ++ conf_clause ].

Definition rows_plain_sql (conf_clause order : text) : text :=
  template
    [ py "            SELECT p.id, p.title, p.date_published, p.confidence, p.match_strategy,";
      py "                   p.wayback_url, p.original_url, substr(p.body_text, 1, 300) as snippet";
      py "            FROM posts p";
      py "            WHERE p.author = 'Jared Carrabis' " ++ conf_clause;
      py "            ORDER BY " ++ order;
      py "            LIMIT ? OFFSET ?" ].

(** The two statements that [search_posts] executes: the count, then the
    page of rows. *)
Definition search_posts_statements
  (title_query body_query confidence sort : text) (limit offset : Z)
  : statement * statement :=
  let (conf_vals, conf_clause) := conf_filter confidence in
  let m := fts_match title_query body_query in
  let using_fts := truthy m in
  if text_eqb sort (py "Most relevant") && using_fts then
    let ps := List.map SqlText conf_vals ++ [SqlText m] in
    ({| sql := count_fts_sql conf_clause; params := ps |},
     {| sql := rows_fts_sql conf_clause (py "fts.rank");
        params := ps ++ [SqlInt limit; SqlInt offset] |})
  else
    let order := dict_get sort sort_map (py "p.date_published DESC") in
    if using_fts then
      let ps := List.map SqlText conf_vals ++ [SqlText m] in
      ({| sql := count_fts_sql conf_clause; params := ps |},
       {| sql := rows_fts_sql conf_clause order;
          params := ps ++ [SqlInt limit; SqlInt offset] |})
    else
      let ps := List.map SqlText conf_vals in
      ({| sql := count_plain_sql conf_clause; params := ps |},
       {| sql := rows_plain_sql conf_clause order;
          params := ps ++ [SqlInt limit; SqlInt offset] |}).

(** ** [format_date] *)

(** [a < b] on strings: by code points, a proper prefix first. *)
Fixpoint text_ltb (a b : text) : bool :=
  match a, b with
  | _, [] => false
  | [], _ :: _ => true
  | x :: a', y :: b' =>
      if (x <? y)%N then true
      else if (y <? x)%N then false
      else text_ltb a' b'
  end.

Definition format_date (date_str : option text) : text :=
  match date_str with
  | None => py "No date"
  | Some d =>
      if negb (truthy d) || text_ltb d (py "2010") || text_ltb (py "2025") d
      then py "No date"
      else d
  end.

(** ** The session state in [main] *)

(** [st.session_state]: [None] in [page] and [last_search_key] is a key
    that is not set yet. *)
Record session : Type := {
  viewing_post : option Z;
  page : option Z;
  last_search_key : option text
}.

(** The values of the sidebar widgets in one run. *)
Record widgets : Type := {
  title_search : text;
  body_search : text;
  confidence_filter : text;
  sort_order : text;
  per_page : Z
}.

(** The button that returns [True] in this run, if any. *)
Inductive click : Type :=
| NoClick
| ClickBack
| ClickRead (id : Z)
| ClickPrev
| ClickNext.

(** [f"{title_search}|{body_search}|{confidence_filter}|{sort_order}"] *)
Definition search_key (w : widgets) : text :=
  title_search w ++ py "|" ++ body_search w ++ py "|"
    ++ confidence_filter w ++ py "|" ++ sort_order w.

(** [max(1, (total + per_page - 1) // per_page)] *)
Definition total_pages (total per_page : Z) : Z :=
  Z.max 1 ((total + per_page - 1) / per_page).

(** The page after the reset on a changed search key. *)
Definition current_page (st : session) (w : widgets) : Z :=
  let page0 := match page st with Some p => p | None => 0%Z end in
  let last :=
    match last_search_key st with Some k => k | None => search_key w end in
  if text_eqb last (search_key w) then page0 else 0%Z.

(** One run of [main] on the session state.  [found] stands for
    [search_posts] on the database: from the arguments of the call to the
    total and the ids of the posts of the page. *)
Definition main_run
  (found : text -> text -> text -> text -> Z -> Z -> Z * list Z)
  (st : session) (w : widgets) (ev : click) : session :=
  let page0 := match page st with Some p => p | None => 0%Z end in
  match viewing_post st with
  | Some _ =>
      {| viewing_post :=
           match ev with ClickBack => None | _ => viewing_post st end;
         page := Some page0;
         last_search_key := last_search_key st |}
  | None =>
      let p := current_page st w in
      let key := Some (search_key w) in
      let (total, posts) :=
        found (title_search w) (body_search w) (confidence_filter w)
          (sort_order w) (per_page w) (p * per_page w)%Z in
      let same :=
        {| viewing_post := None; page := Some p; last_search_key := key |} in
      match posts with
      | [] => same
      | _ :: _ =>
          match ev with
          | ClickRead id =>
              if existsb (Z.eqb id) posts
              then {| viewing_post := Some id; page := Some p;
                      last_search_key := key |}
              else same
          | ClickPrev =>
              if (0 <? p)%Z
              then {| viewing_post := None; page := Some (p - 1)%Z;
                      last_search_key := key |}
              else same
          | ClickNext =>
              if (p <? total_pages total (per_page w) - 1)%Z
              then {| viewing_post := None; page := Some (p + 1)%Z;
                      last_search_key := key |}
              else same
          | _ => same
          end
      end
  end.

(** ** The row loop of [make_deploy_db.py] *)

(** A row of [posts] in the source database; [None] is SQL [NULL]. *)
Record src_row : Type := {
  r_id : Z;
  r_original_url : option text;
  r_wayback_url : option text;
  r_title : option text;
  r_author : option text;
  r_date_published : option text;
  r_body_text : option text;
  r_body_html : option text;
  r_confidence : option text;
  r_match_strategy : option text;
  r_era : option text;
  r_source : option text
}.

(** A tuple of [batch]. *)
Record dst_row : Type := {
  d_id : Z;
  d_original_url : option text;
  d_wayback_url : option text;
  d_title : option text;
  d_author : option text;
  d_date_published : option text;
  d_body_text : option text;
  d_body_html : option text;
  d_confidence : option text;
  d_match_strategy : option text;
  d_era : text;
  d_source : text
}.

Definition CLEAN_HTML_ERAS : list text :=
  [py "nextjs_v2"; py "soxspacenews"; py "soxspaceboston"].

(** [d[key] = d.get(key, 0) + 1] *)
Fixpoint dict_incr (key : text) (d : list (text * Z)) : list (text * Z) :=
  match d with
  | [] => [(key, 1%Z)]
  | (k, v) :: d' =>
      if text_eqb k key then (k, (v + 1)%Z) :: d'
      else (k, v) :: dict_incr key d'
  end.

(** The variables of the loop. *)
Record tally : Type := {
  html_kept : Z;
  text_only_count : Z;
  source_counts : list (text * Z);
  batch : list dst_row
}.

Definition deploy_step (acc : tally) (r : src_row) : tally :=
  let e := or_else (r_era r) [] in
  let source := or_else (r_source r) (py "barstool") in
  let keep := mem_text e CLEAN_HTML_ERAS in
  {| html_kept := if keep then (html_kept acc + 1)%Z else html_kept acc;
     text_only_count :=
       if keep then text_only_count acc else (text_only_count acc + 1)%Z;
     source_counts := dict_incr source (source_counts acc);
     batch :=
       batch acc
         ++ [{| d_id := r_id r;
                d_original_url := r_original_url r;
                d_wayback_url := r_wayback_url r;
                d_title := r_title r;
                d_author := r_author r;
                d_date_published := r_date_published r;
                d_body_text := r_body_text r;
                d_body_html := if keep then r_body_html r else None;
                d_confidence := r_confidence r;
                d_match_strategy := r_match_strategy r;
                d_era := e;
                d_source := source |}] |}.

Definition deploy_loop (rows : list src_row) : tally :=
  fold_left deploy_step rows
    {| html_kept := 0; text_only_count := 0; source_counts := [];
       batch := [] |}.

(** What [get_post] returns to [get_display_html] for a row of the deploy
    database. *)
Definition post_of_row (d : dst_row) : post :=
  {| body_html := d_body_html d;
     body_text := d_body_text d;
     era := Some (d_era d) |}.

(** A text of whitespace only. *)
Definition blank (s : text) : Prop := forallb is_space s = true.

(** A character that is none of [<], [>], the double quote and the single
    quote. *)
Definition plain_text_char (c : char) : Prop :=
  c <> 60%N /\ c <> 62%N /\ c <> 34%N /\ c <> 39%N.

(** The strings of a document, in document order. *)
Definition label_texts (l : label) : list (skind * text) :=
  match l with LStr k s => [(k, s)] | LTag _ _ => [] end.

Definition label_names (l : label) : list text :=
  match l with LTag n _ => [n] | LStr _ _ => [] end.

Definition texts {I} (f : list (tree I)) : list (skind * text) :=
  flat_map (fun h => label_texts (snd h)) (descendants f).

(** The names of the tags of a document, in document order. *)
Definition tag_names {I} (f : list (tree I)) : list text :=
  flat_map (fun h => label_names (snd h)) (descendants f).

(** The tuple that the export writes for a row. *)
Definition clean_era (r : src_row) : bool :=
  mem_text (or_else (r_era r) []) CLEAN_HTML_ERAS.

Definition deploy_row (r : src_row) : dst_row :=
  {| d_id := r_id r;
     d_original_url := r_original_url r;
     d_wayback_url := r_wayback_url r;
     d_title := r_title r;
     d_author := r_author r;
     d_date_published := r_date_published r;
     d_body_text := r_body_text r;
     d_body_html := if clean_era r then r_body_html r else None;
     d_confidence := r_confidence r;
     d_match_strategy := r_match_strategy r;
     d_era := or_else (r_era r) [];
     d_source := or_else (r_source r) (py "barstool") |}.

(** The sum of the counts of a dictionary. *)
Definition dict_total (d : list (text * Z)) : Z :=
  fold_right Z.add 0%Z (List.map snd d).

(** A word: a non-empty text without whitespace. *)
Definition word (w : text) : Prop :=
  w <> [] /\ forallb (fun c => negb (is_space c)) w = true.

(** The number of occurrences of a character in a text. *)
Definition count_char (c : char) (s : text) : nat :=
  length (filter (char_eqb c) s).

(** [st.session_state.page], 0 when the key is not set yet. *)
Definition page_of (st : session) : Z :=
  match page st with Some p => p | None => 0%Z end.

(** ** More example inputs *)

Definition example_padded : text :=
  [32%N; 32%N] ++ py "Hello world" ++ [32%N; nl].

(** An [article] around a string and a [font], two tags that are not on
    the allow-list. *)
Definition example_wrapped : list node :=
  [Tag tt (py "article") []
     [Str tt SPlain (py "a");
      Tag tt (py "font") [(py "style", AStr (py "y"))]
        [Str tt SPlain (py "b")]]].

(** A row of an era that is not clean. *)
Definition example_row : src_row :=
  {| r_id := 7%Z;
     r_original_url := Some (py "https://example.org/post");
     r_wayback_url := None;
     r_title := Some (py "Sox win");
     r_author := Some (py "Jared Carrabis");
     r_date_published := Some (py "2014-11-24");
     r_body_text := Some (py "Sox win.");
     r_body_html := Some (py "<div>Sox win.</div>");
     r_confidence := Some (py "high");
     r_match_strategy := None;
     r_era := Some (py "barstool_v1");
     r_source := None |}.

(** A database with 120 posts for every search, three on each page. *)
Definition example_found (_ _ _ _ : text) (_ _ : Z) : Z * list Z :=
  (120%Z, [11%Z; 12%Z; 13%Z]).

Definition example_widgets : widgets :=
  {| title_search := py "red sox";
     body_search := [];
     confidence_filter := py "all";
     sort_order := py "Newest first";
     per_page := 50%Z |}.

Definition example_session : session :=
  {| viewing_post := None; page := Some 1%Z; last_search_key := None |}.

(** * Properties *)

Unset Implicit Arguments.

Arguments mem_text : simpl never.
Arguments allowed_attrs : simpl never.
Arguments junk_attrs : simpl never.

(** ** Strings *)

Lemma text_eqb_eq (a b : text) : text_eqb a b = true <-> a = b.
Proof.
  revert b; induction a as [|x a IH]; intros [|y b]; simpl;
    try (split; congruence).
  unfold char_eqb; rewrite andb_true_iff, N.eqb_eq, IH.
  split; [intros [-> ->]; reflexivity | intros H; inversion H; auto].
Qed.

Lemma text_eqb_refl (a : text) : text_eqb a a = true.
Proof. apply text_eqb_eq; reflexivity. Qed.

Lemma truthy_false (s : text) : truthy s = false -> s = [].
Proof. destruct s; simpl; congruence. Qed.

Lemma lstrip_suffix (s : text) : exists a, s = a ++ lstrip s.
Proof.
  induction s as [|c s [a IH]]; simpl.
  - exists []; reflexivity.
  - destruct (is_space c).
    + exists (c :: a); simpl; congruence.
    + exists []; reflexivity.
Qed.

Lemma rstrip_prefix (s : text) : exists b, s = rstrip s ++ b.
Proof.
  induction s as [|c s [b IH]]; simpl.
  - exists []; reflexivity.
  - destruct (rstrip s) as [|d r] eqn:E.
    + destruct (is_space c).
      * exists (c :: s); reflexivity.
      * exists s; reflexivity.
    + exists b; simpl in *; congruence.
Qed.

Lemma rstrip_cons_keep (c : char) (s : text) :
  is_space c = false -> rstrip (c :: s) = c :: rstrip s.
Proof.
  intros H; simpl; rewrite H; destruct (rstrip s); reflexivity.
Qed.

Lemma rstrip_idem (s : text) : rstrip (rstrip s) = rstrip s.
Proof.
  induction s as [|c s IH]; simpl; [reflexivity|].
  destruct (rstrip s) as [|d r] eqn:E.
  - destruct (is_space c) eqn:Hc; simpl; [reflexivity|].
    rewrite Hc; reflexivity.
  - change (rstrip (c :: d :: r) = c :: d :: r).
    simpl; simpl in IH; rewrite IH; reflexivity.
Qed.

Lemma rstrip_app_space (s : text) (c : char) :
  is_space c = true -> rstrip (s ++ [c]) = rstrip s.
Proof.
  intros Hc; induction s as [|d s IH]; simpl.
  - rewrite Hc; reflexivity.
  - rewrite IH; reflexivity.
Qed.

Lemma lstrip_head (s : text) :
  lstrip s = [] \/ exists c z, lstrip s = c :: z /\ is_space c = false.
Proof.
  induction s as [|c s IH]; simpl; [left; reflexivity|].
  destruct (is_space c) eqn:Hc; [exact IH|].
  right; exists c, s; auto.
Qed.

Lemma lstrip_strip (s : text) : lstrip (strip s) = strip s.
Proof.
  unfold strip.
  destruct (lstrip_head s) as [-> | (c & z & -> & Hc)]; [reflexivity|].
  rewrite (rstrip_cons_keep c z Hc); simpl; rewrite Hc; reflexivity.
Qed.

Lemma rstrip_strip (s : text) : rstrip (strip s) = strip s.
Proof. unfold strip; apply rstrip_idem. Qed.

Lemma strip_idem (s : text) : strip (strip s) = strip s.
Proof.
  unfold strip at 1; rewrite lstrip_strip; apply rstrip_strip.
Qed.

Lemma strip_infix (s : text) : exists a b, s = a ++ strip s ++ b.
Proof.
  destruct (lstrip_suffix s) as [a Ha].
  destruct (rstrip_prefix (lstrip s)) as [b Hb].
  exists a, b; unfold strip; rewrite <- Hb; exact Ha.
Qed.

(** ** The matcher *)

Lemma search_from_some fl r i s j rest :
  search_from fl r i s = Some (j, rest) ->
  exists m, j = i + m
            /\ match_here fl r (skipn m s) = Some rest
            /\ forall m', m' < m -> match_here fl r (skipn m' s) = None.
Proof.
  revert i; induction s as [|c s IH]; intros i; simpl.
  - destruct (match_here fl r []) eqn:E; [|discriminate].
    intros H; inversion H; subst.
    exists 0; repeat split; [lia | exact E | intros; lia].
  - destruct (match_here fl r (c :: s)) eqn:E.
    + intros H; inversion H; subst.
      exists 0; repeat split; [lia | exact E | intros; lia].
    + intros H; destruct (IH _ H) as (m & -> & Hm & Hlt).
      exists (S m); repeat split; [lia | exact Hm |].
      intros [|m'] Hm'; [exact E | apply Hlt; lia].
Qed.

Lemma search_from_none fl r i s :
  search_from fl r i s = None <->
  forall m, match_here fl r (skipn m s) = None.
Proof.
  revert i; induction s as [|c s IH]; intros i; simpl.
  - destruct (match_here fl r []) eqn:E; split; try congruence.
    + intros H; specialize (H 0); simpl in H; congruence.
    + intros _ m; rewrite skipn_nil; exact E.
  - destruct (match_here fl r (c :: s)) eqn:E.
    + split; [discriminate|].
      intros H; specialize (H 0); simpl in H; congruence.
    + rewrite IH; split.
      * intros H [|m]; [exact E | apply H].
      * intros H m; apply (H (S m)).
Qed.

Lemma search_from_found fl r i s m rest :
  match_here fl r (skipn m s) = Some rest ->
  (forall m', m' < m -> match_here fl r (skipn m' s) = None) ->
  search_from fl r i s = Some (i + m, rest).
Proof.
  revert i s; induction m as [|m IH]; intros i s Hm Hlt.
  - simpl in Hm. rewrite Nat.add_0_r.
    destruct s; simpl; rewrite Hm; reflexivity.
  - destruct s as [|c s].
    + simpl in Hm. specialize (Hlt 0 (Nat.lt_0_succ _)); simpl in Hlt.
      congruence.
    + pose proof (Hlt 0 (Nat.lt_0_succ _)) as H0; simpl in H0.
      simpl; rewrite H0.
      replace (i + S m) with (S i + m) by lia.
      apply IH; [exact Hm|].
      intros m' Hm'; apply (Hlt (S m')); lia.
Qed.

(** The loop over the patterns stops at the first pattern of the list that
    has a match. *)
Lemma cut_loop_first (pats : list regex) (t : text) k p i rest :
  nth_error pats k = Some p ->
  (forall j q, j < k -> nth_error pats j = Some q ->
               search no_flags q t = None) ->
  search no_flags p t = Some (i, rest) ->
  cut_loop pats t = rstrip (firstn i t).
Proof.
  revert k; induction pats as [|q pats IH]; intros k Hk Hbefore Hp.
  - destruct k; discriminate.
  - destruct k as [|k]; simpl in *.
    + inversion Hk; subst; rewrite Hp; reflexivity.
    + rewrite (Hbefore 0 q (Nat.lt_0_succ _) eq_refl).
      apply (IH k Hk); [|exact Hp].
      intros j q' Hj Hq'; apply (Hbefore (S j) q'); [lia | exact Hq'].
Qed.

Lemma cut_loop_none (pats : list regex) (t : text) :
  Forall (fun p => search no_flags p t = None) pats ->
  cut_loop pats t = t.
Proof.
  induction 1 as [|p pats Hp _ IH]; simpl; [reflexivity|].
  rewrite Hp; exact IH.
Qed.

Lemma cut_loop_prefix (pats : list regex) (t : text) :
  exists b, t = cut_loop pats t ++ b.
Proof.
  induction pats as [|p pats IH]; simpl.
  - exists []; rewrite app_nil_r; reflexivity.
  - destruct (search no_flags p t) as [[start rest]|]; [|exact IH].
    destruct (rstrip_prefix (firstn start t)) as [b Hb].
    exists (b ++ skipn start t).
    rewrite app_assoc, <- Hb; symmetry; apply firstn_skipn.
Qed.

Lemma greedy_suffix p k : returns_suffix k -> returns_suffix (greedy p k).
Proof.
  intros Hk s; induction s as [|c s IH]; intros rest; simpl.
  - apply Hk.
  - destruct (p c); [|apply Hk].
    destruct (greedy p k s) as [r|] eqn:E; [|apply Hk].
    intros H; inversion H; subst.
    destruct (IH _ eq_refl) as [a ->]; exists (c :: a); reflexivity.
Qed.

Lemma lazy_suffix p k : returns_suffix k -> returns_suffix (lazy p k).
Proof.
  intros Hk s; induction s as [|c s IH]; intros rest; simpl.
  - destruct (k []) eqn:E; [|discriminate].
    intros H; inversion H; subst; apply (Hk _ _ E).
  - destruct (k (c :: s)) eqn:E.
    + intros H; inversion H; subst; apply (Hk _ _ E).
    + destruct (p c); [|discriminate].
      intros H; destruct (IH _ H) as [a ->]; exists (c :: a); reflexivity.
Qed.

Lemma exactly_suffix n p k : returns_suffix k -> returns_suffix (exactly n p k).
Proof.
  intros Hk; induction n as [|n IH]; intros s rest; simpl; [apply Hk|].
  destruct s as [|c s]; [discriminate|].
  destruct (p c); [|discriminate].
  intros H; destruct (IH _ _ H) as [a ->]; exists (c :: a); reflexivity.
Qed.

Lemma quantified_suffix q p k :
  returns_suffix k -> returns_suffix (quantified q p k).
Proof.
  intros Hk s rest; destruct q; simpl.
  - apply (exactly_suffix 1 p k Hk).
  - apply greedy_suffix, Hk.
  - destruct s as [|c s]; [discriminate|].
    destruct (p c); [|discriminate].
    intros H; destruct (greedy_suffix p k Hk _ _ H) as [a ->].
    exists (c :: a); reflexivity.
  - apply lazy_suffix, Hk.
  - destruct s as [|c s]; [apply Hk|].
    destruct (p c); [|apply Hk].
    destruct (k s) as [r|] eqn:E; [|apply Hk].
    intros H; inversion H; subst.
    destruct (Hk _ _ E) as [a ->]; exists (c :: a); reflexivity.
  - apply exactly_suffix, Hk.
Qed.

Lemma match_here_suffix fl r : returns_suffix (match_here fl r).
Proof.
  induction r as [|[q c|] r IH]; simpl.
  - intros s rest H; inversion H; exists []; reflexivity.
  - apply quantified_suffix, IH.
  - intros s rest; destruct (at_eol s); [apply IH | discriminate].
Qed.

(** What a continuation returns, it returned on some input. *)
Lemma greedy_inv p k s rest :
  greedy p k s = Some rest -> exists s', k s' = Some rest.
Proof.
  induction s as [|c s IH]; simpl.
  - intros H; exists []; exact H.
  - destruct (p c); [|intros H; exists (c :: s); exact H].
    destruct (greedy p k s) as [r|]; [|intros H; exists (c :: s); exact H].
    intros H; inversion H; subst; apply IH; reflexivity.
Qed.

Lemma lazy_inv p k s rest :
  lazy p k s = Some rest -> exists s', k s' = Some rest.
Proof.
  induction s as [|c s IH]; simpl.
  - destruct (k []) eqn:E; [|discriminate].
    intros H; inversion H; subst; exists []; exact E.
  - destruct (k (c :: s)) eqn:E.
    + intros H; inversion H; subst; exists (c :: s); exact E.
    + destruct (p c); [exact IH | discriminate].
Qed.

Lemma exactly_inv n p k s rest :
  exactly n p k s = Some rest -> exists s', k s' = Some rest.
Proof.
  revert s; induction n as [|n IH]; intros s; simpl.
  - intros H; exists s; exact H.
  - destruct s as [|c s]; [discriminate|].
    destruct (p c); [apply IH | discriminate].
Qed.

Lemma quantified_inv q p k s rest :
  quantified q p k s = Some rest -> exists s', k s' = Some rest.
Proof.
  destruct q; simpl.
  - apply (exactly_inv 1).
  - apply greedy_inv.
  - destruct s as [|c s]; [discriminate|].
    destruct (p c); [apply greedy_inv | discriminate].
  - apply lazy_inv.
  - destruct s as [|c s]; [intros H; exists []; exact H|].
    destruct (p c); [|intros H; exists (c :: s); exact H].
    destruct (k s) as [r|] eqn:E; [|intros H; exists (c :: s); exact H].
    intros H; inversion H; subst; exists s; exact E.
  - apply exactly_inv.
Qed.

(** A pattern that ends in [$] leaves nothing, or one final newline. *)
Lemma match_here_eol fl r s rest :
  match_here fl (r ++ [Eol]) s = Some rest -> rest = [] \/ rest = [nl].
Proof.
  revert s; induction r as [|[q c|] r IH]; intros s; simpl.
  - destruct s as [|x [|y s]]; simpl; try discriminate.
    + intros H; inversion H; auto.
    + unfold char_eqb; destruct (N.eqb_spec x nl); [|discriminate].
      intros H; inversion H; subst; auto.
  - intros H; destruct (quantified_inv _ _ _ _ _ H) as [s' Hs'].
    apply (IH _ Hs').
  - destruct (at_eol s); [apply IH | discriminate].
Qed.

Lemma byline_ends_in_eol :
  byline_pattern = removelast byline_pattern ++ [Eol].
Proof. reflexivity. Qed.

Lemma byline_needs_text :
  match_here flag_I byline_pattern [] = None
  /\ match_here flag_I byline_pattern [nl] = None.
Proof. split; reflexivity. Qed.

(** [re.sub] with the byline pattern deletes at most one stretch of the
    text, and that stretch runs to the end or to a final newline. *)
Lemma sub_go_byline fuel x :
  exists pre tail,
    sub_go fuel flag_I byline_pattern [] x = pre ++ tail
    /\ (tail = [] \/ tail = [nl])
    /\ exists suf, x = pre ++ suf.
Proof.
  destruct byline_needs_text as [Hnil Hnl].
  assert (Hend : forall f, sub_go f flag_I byline_pattern [] [] = []).
  { intros [|f]; [reflexivity|]. cbn [sub_go]; rewrite Hnil; reflexivity. }
  assert (Hendnl : forall f, sub_go f flag_I byline_pattern [] [nl] = [nl]).
  { intros [|f]; [reflexivity|].
    cbn [sub_go]; rewrite Hnl, Hend; reflexivity. }
  revert x; induction fuel as [|f IH]; intros x.
  - exists x, []; simpl; rewrite app_nil_r; repeat split; auto.
    exists []; rewrite app_nil_r; reflexivity.
  - cbn [sub_go].
    destruct (match_here flag_I byline_pattern x) as [rest|] eqn:E.
    + assert (Hrest : rest = [] \/ rest = [nl]).
      { rewrite byline_ends_in_eol in E; apply (match_here_eol _ _ _ _ E). }
      destruct (length rest <? length x) eqn:Hlen.
      * exists [], (sub_go f flag_I byline_pattern [] rest); simpl.
        split; [reflexivity|]; split; [|exists x; reflexivity].
        destruct Hrest as [-> | ->]; [left; apply Hend | right; apply Hendnl].
      * destruct x as [|c x].
        -- exists [], []; repeat split; auto. exists []; reflexivity.
        -- destruct (IH x) as (pre & tail & Hsub & Htail & suf & Hsuf).
           exists (c :: pre), tail; simpl; rewrite Hsub.
           repeat split; auto. exists suf; simpl; congruence.
    + destruct x as [|c x].
      * exists [], []; repeat split; auto. exists []; reflexivity.
      * destruct (IH x) as (pre & tail & Hsub & Htail & suf & Hsuf).
        exists (c :: pre), tail; simpl; rewrite Hsub.
        repeat split; auto. exists suf; simpl; congruence.
Qed.

Lemma strip_byline_prefix (x : text) : exists b, x = strip_byline x ++ b.
Proof.
  unfold strip_byline, re_sub.
  destruct (sub_go_byline (S (length x)) x)
    as (pre & tail & -> & Htail & suf & Hsuf).
  assert (E : rstrip (pre ++ tail) = rstrip pre).
  { destruct Htail as [-> | ->];
      [rewrite app_nil_r; reflexivity | apply rstrip_app_space; reflexivity]. }
  rewrite E. destruct (rstrip_prefix pre) as [b Hb].
  exists (b ++ suf). rewrite app_assoc, <- Hb; exact Hsuf.
Qed.

Lemma strip_nav_suffix (x : text) : exists a, x = a ++ strip_nav x.
Proof.
  unfold strip_nav.
  destruct (match_here flag_IS nav_pattern x) as [rest|] eqn:E.
  - destruct (match_here_suffix _ _ _ _ E) as [a ->].
    destruct (lstrip_suffix rest) as [a' Ha'].
    exists (a ++ a'); rewrite <- app_assoc, <- Ha'; reflexivity.
  - exists []; reflexivity.
Qed.

(** Without a match, [re.sub] returns the text as it is. *)
Lemma sub_go_no_match fuel fl r repl s :
  (forall m, match_here fl r (skipn m s) = None) ->
  sub_go fuel fl r repl s = s.
Proof.
  revert s; induction fuel as [|f IH]; intros s H; [reflexivity|].
  cbn [sub_go]. pose proof (H 0) as H0; simpl in H0; rewrite H0.
  destruct s as [|c s]; [reflexivity|].
  f_equal; apply IH; intros m; apply (H (S m)).
Qed.

Lemma re_sub_no_match fl r repl s :
  search fl r s = None -> re_sub fl r repl s = s.
Proof.
  intros H; apply sub_go_no_match, (proj1 (search_from_none fl r 0 s)), H.
Qed.

(** The fuel of [re_sub] is enough: more fuel gives the same result. *)
Lemma sub_go_enough fuel fuel' fl r repl s :
  length s < fuel -> length s < fuel' ->
  sub_go fuel fl r repl s = sub_go fuel' fl r repl s.
Proof.
  revert fuel' s; induction fuel as [|f IH]; intros fuel' s H H'; [lia|].
  destruct fuel' as [|f']; [lia|]. cbn [sub_go].
  destruct (match_here fl r s) as [rest|].
  - destruct (length rest <? length s) eqn:E.
    + apply Nat.ltb_lt in E. f_equal. apply IH; lia.
    + destruct s as [|c s]; [reflexivity|].
      simpl in H, H'. do 2 f_equal. apply IH; lia.
  - destruct s as [|c s]; [reflexivity|].
    simpl in H, H'. f_equal. apply IH; lia.
Qed.

(** ** The junk-pattern matcher *)

(** C2.  [clean_body_text] walks [cut_patterns] in list order.  When the
    pattern at index [k] has a match and no pattern before it in the list
    has one anywhere in the text, the text is cut at the leftmost start [i]
    of that pattern's matches and right-trimmed, whatever the later patterns
    would match; when no pattern matches the text is left as it is.  On the
    example of the specification the function returns "Great game today.",
    and a marker later in the list that occurs earlier in the text does not
    win over one that is earlier in the list. *)
Theorem cut_loop_priority_order :
  (forall (t : text) (k : nat) (p : regex) (i : nat) (rest : text),
      nth_error cut_patterns k = Some p ->
      (forall j q, j < k -> nth_error cut_patterns j = Some q ->
                   forall m, match_here no_flags q (skipn m t) = None) ->
      match_here no_flags p (skipn i t) = Some rest ->
      (forall m, m < i -> match_here no_flags p (skipn m t) = None) ->
      cut_loop cut_patterns t = rstrip (firstn i t))
  /\ (forall t : text,
         (forall p m, In p cut_patterns ->
                      match_here no_flags p (skipn m t) = None) ->
         cut_loop cut_patterns t = t)
  /\ clean_body_text (Some example_share) = Some (py "Great game today.")
  /\ cut_loop cut_patterns example_two_markers = py "Leave a Comment".
Proof.
  split; [|split; [|split]].
  - intros t k p i rest Hk Hbefore Hi Hleast.
    apply (cut_loop_first cut_patterns t k p i rest Hk).
    + intros j q Hj Hq. apply search_from_none. apply (Hbefore j q Hj Hq).
    + apply (search_from_found no_flags p 0 t i rest Hi Hleast).
  - intros t H. apply cut_loop_none, Forall_forall.
    intros p Hp. apply search_from_none. intros m; apply (H p m Hp).
  - vm_compute; reflexivity.
  - vm_compute; reflexivity.
Qed.

(** C5 (as amended).  A second application of [clean_body_text] changes
    nothing when the text cleaned once has no match of a cut pattern, no
    byline and no navigation prefix left in it. *)
Theorem clean_body_text_fixed_point (t : text) :
  Forall (fun p => search no_flags p (clean_body_str t) = None) cut_patterns ->
  search flag_I byline_pattern (clean_body_str t) = None ->
  match_here flag_IS nav_pattern (clean_body_str t) = None ->
  clean_body_text (clean_body_text (Some t)) = clean_body_text (Some t).
Proof.
  intros Hcut Hby Hnav. simpl. f_equal.
  assert (Hs : strip (clean_body_str t) = clean_body_str t).
  { unfold clean_body_str. destruct (truthy t) eqn:Ht.
    - apply strip_idem.
    - apply truthy_false in Ht; subst; reflexivity. }
  remember (clean_body_str t) as u eqn:Hu.
  unfold clean_body_str at 1.
  destruct (truthy u); [|reflexivity].
  rewrite (cut_loop_none _ _ Hcut).
  unfold strip_byline. rewrite (re_sub_no_match _ _ _ _ Hby).
  assert (Hr : rstrip u = u) by (rewrite <- Hs; apply rstrip_strip).
  rewrite Hr. unfold strip_nav. rewrite Hnav. exact Hs.
Qed.

(** C10.  [clean_body_text] returns a contiguous piece of its argument: the
    cut and the byline removal keep a prefix, the navigation removal keeps a
    suffix, the trimming keeps a piece; nothing is inserted or reordered, and
    the result is never longer than the argument. *)
Theorem clean_body_text_substring (t : text) :
  (exists b, t = cut_loop cut_patterns t ++ b)
  /\ (forall x, exists b, x = strip_byline x ++ b)
  /\ (forall x, exists a, x = a ++ strip_nav x)
  /\ (forall x, exists a b, x = a ++ strip x ++ b)
  /\ (exists a b, t = a ++ clean_body_str t ++ b)
  /\ length (clean_body_str t) <= length t
  /\ clean_body_text None = None.
Proof.
  assert (Hsub : exists a b, t = a ++ clean_body_str t ++ b).
  { unfold clean_body_str. destruct (truthy t).
    - destruct (cut_loop_prefix cut_patterns t) as [b1 H1].
      destruct (strip_byline_prefix (cut_loop cut_patterns t)) as [b2 H2].
      destruct (strip_nav_suffix (strip_byline (cut_loop cut_patterns t)))
        as [a3 H3].
      destruct (strip_infix
                  (strip_nav (strip_byline (cut_loop cut_patterns t))))
        as (a4 & b4 & H4).
      exists (a3 ++ a4), (b4 ++ b2 ++ b1).
      rewrite H1 at 1. rewrite H2 at 1. rewrite H3 at 1. rewrite H4 at 1.
      repeat rewrite <- app_assoc. reflexivity.
    - exists [], []; rewrite app_nil_r; reflexivity. }
  repeat split.
  - apply cut_loop_prefix.
  - apply strip_byline_prefix.
  - apply strip_nav_suffix.
  - apply strip_infix.
  - exact Hsub.
  - destruct Hsub as (a & b & H).
    apply (f_equal (@length char)) in H.
    repeat rewrite length_app in H. lia.
Qed.

(** The byline example of the specification. *)
Lemma clean_body_text_byline_example :
  clean_body_text (Some example_byline) = Some (py "...final thoughts.").
Proof. vm_compute; reflexivity. Qed.

(** ** The text tier *)

Lemma split_go_not_nil sep skip cur s : split_go sep skip cur s <> [].
Proof.
  revert skip cur; induction s as [|c s IH]; intros skip cur; simpl;
    [discriminate|].
  destruct skip; [|apply IH].
  destruct (strip_prefix sep (c :: s)); [discriminate | apply IH].
Qed.

Lemma split_go_line sep' cur l rest :
  one_line l ->
  split_go (nl :: sep') 0 cur (l ++ rest)
  = split_go (nl :: sep') 0 (rev l ++ cur) rest.
Proof.
  intros Hl; revert cur; induction Hl as [|c l Hc _ IH]; intros cur.
  - reflexivity.
  - cbn [app split_go strip_prefix].
    unfold char_eqb. destruct (N.eqb_spec nl c) as [E|_]; [congruence|].
    rewrite IH. simpl. rewrite <- app_assoc. reflexivity.
Qed.

Lemma split_go_join_nl cur l ls :
  Forall one_line (l :: ls) ->
  split_go [nl] 0 cur (join [nl] (l :: ls)) = (rev cur ++ l) :: ls.
Proof.
  revert cur l; induction ls as [|l2 ls IH]; intros cur l H.
  - simpl. rewrite <- (app_nil_r l) at 1.
    rewrite split_go_line by (inversion H; assumption).
    simpl. rewrite rev_app_distr, rev_involutive. reflexivity.
  - change (join [nl] (l :: l2 :: ls))
      with (l ++ nl :: join [nl] (l2 :: ls)).
    rewrite split_go_line by (inversion H; assumption).
    cbn [split_go strip_prefix]. unfold char_eqb; rewrite N.eqb_refl.
    rewrite rev_app_distr, rev_involutive.
    cbn [length Nat.sub]. rewrite IH by (inversion H; assumption).
    reflexivity.
Qed.

Lemma split_go_join_nlnl cur p ps :
  Forall one_line (p :: ps) ->
  split_go [nl; nl] 0 cur (join [nl; nl] (p :: ps)) = (rev cur ++ p) :: ps.
Proof.
  revert cur p; induction ps as [|p2 ps IH]; intros cur p H.
  - simpl. rewrite <- (app_nil_r p) at 1.
    rewrite split_go_line by (inversion H; assumption).
    simpl. rewrite rev_app_distr, rev_involutive. reflexivity.
  - change (join [nl; nl] (p :: p2 :: ps))
      with (p ++ nl :: nl :: join [nl; nl] (p2 :: ps)).
    rewrite split_go_line by (inversion H; assumption).
    cbn [split_go strip_prefix]. unfold char_eqb; rewrite N.eqb_refl.
    cbn [length Nat.sub].
    rewrite rev_app_distr, rev_involutive.
    rewrite IH by (inversion H; assumption).
    reflexivity.
Qed.

Lemma split_go_lines_nlnl cur l ls :
  Forall (fun x => one_line x /\ x <> []) (l :: ls) ->
  split_go [nl; nl] 0 cur (join [nl] (l :: ls))
  = [rev cur ++ join [nl] (l :: ls)].
Proof.
  revert cur l; induction ls as [|l2 ls IH]; intros cur l H.
  - simpl. rewrite <- (app_nil_r l) at 1.
    rewrite split_go_line
      by (inversion H as [|? ? [Hl1 _] _]; exact Hl1).
    simpl. rewrite rev_app_distr, rev_involutive. reflexivity.
  - inversion H as [|? ? [Hl _] H']; subst.
    pose proof H' as H''. inversion H'' as [|? ? [Hl2 Hne] _]; subst.
    destruct l2 as [|c2 l2]; [congruence|].
    change (join [nl] (l :: (c2 :: l2) :: ls))
      with (l ++ nl :: join [nl] ((c2 :: l2) :: ls)).
    rewrite split_go_line by assumption.
    assert (Hj : exists w, join [nl] ((c2 :: l2) :: ls) = c2 :: w).
    { destruct ls; simpl; eauto. }
    destruct Hj as [w Hw].
    assert (Hstep :
      split_go [nl; nl] 0 (rev l ++ cur) (nl :: join [nl] ((c2 :: l2) :: ls))
      = split_go [nl; nl] 0 (nl :: rev l ++ cur)
          (join [nl] ((c2 :: l2) :: ls))).
    { rewrite Hw. cbn [split_go strip_prefix].
      unfold char_eqb; rewrite N.eqb_refl.
      inversion Hl2; subst.
      destruct (N.eqb_spec nl c2); [congruence | reflexivity]. }
    rewrite Hstep, IH by assumption.
    simpl. rewrite rev_app_distr, rev_involutive.
    repeat rewrite <- app_assoc. reflexivity.
Qed.

Lemma render_paragraphs_app ps qs :
  render_paragraphs (ps ++ qs) = render_paragraphs ps ++ render_paragraphs qs.
Proof.
  unfold render_paragraphs. rewrite filter_app, map_app, concat_app.
  reflexivity.
Qed.

Lemma strip_prefix_nlnl (c : char) (t : text) :
  match t with
  | d :: _ => negb (char_eqb nl c && char_eqb nl d)
  | [] => true
  end = true ->
  strip_prefix [nl; nl] (c :: t) = None.
Proof.
  cbn [strip_prefix]. destruct (char_eqb nl c); [|reflexivity].
  destruct t as [|d t]; [reflexivity|].
  destruct (char_eqb nl d); [discriminate | reflexivity].
Qed.

Lemma split_go_paragraph cur p rest :
  paragraph p ->
  split_go [nl; nl] 0 cur (p ++ rest)
  = split_go [nl; nl] 0 (rev p ++ cur) rest.
Proof.
  unfold paragraph. revert cur; induction p as [|c p IH]; intros cur H;
    [reflexivity|].
  cbn [app no_blank_line] in H. apply andb_true_iff in H.
  destruct H as [Hc Hp].
  assert (E : strip_prefix [nl; nl] (c :: p ++ rest) = None).
  { apply strip_prefix_nlnl. destruct p as [|d p]; [|exact Hc].
    cbn [app] in Hc. unfold char_eqb in Hc. rewrite N.eqb_refl in Hc.
    rewrite andb_true_r in Hc. cbn [strip_prefix] in *.
    destruct rest as [|e rest]; [reflexivity|].
    unfold char_eqb. apply negb_true_iff in Hc. rewrite Hc. reflexivity. }
  cbn [app split_go]. rewrite E, (IH _ Hp).
  simpl. rewrite <- app_assoc. reflexivity.
Qed.

Lemma split_go_join_paragraphs cur p ps :
  Forall paragraph (p :: ps) ->
  split_go [nl; nl] 0 cur (join [nl; nl] (p :: ps)) = (rev cur ++ p) :: ps.
Proof.
  revert cur p; induction ps as [|p2 ps IH]; intros cur p H.
  - simpl. rewrite <- (app_nil_r p) at 1.
    rewrite split_go_paragraph by (inversion H; assumption).
    simpl. rewrite rev_app_distr, rev_involutive. reflexivity.
  - change (join [nl; nl] (p :: p2 :: ps))
      with (p ++ nl :: nl :: join [nl; nl] (p2 :: ps)).
    rewrite split_go_paragraph by (inversion H; assumption).
    cbn [split_go strip_prefix]. unfold char_eqb; rewrite N.eqb_refl.
    cbn [length Nat.sub].
    rewrite rev_app_distr, rev_involutive.
    rewrite IH by (inversion H; assumption).
    reflexivity.
Qed.

Lemma split_go_no_blank_line cur t :
  no_blank_line t = true -> split_go [nl; nl] 0 cur t = [rev cur ++ t].
Proof.
  revert cur; induction t as [|c t IH]; intros cur H.
  - simpl. rewrite app_nil_r. reflexivity.
  - cbn [no_blank_line] in H. apply andb_true_iff in H.
    destruct H as [Hc Ht].
    cbn [split_go]. rewrite (strip_prefix_nlnl c t Hc), (IH _ Ht).
    simpl. rewrite <- app_assoc. reflexivity.
Qed.

Lemma split_go_blank_line cur t :
  no_blank_line t = false -> 2 <= length (split_go [nl; nl] 0 cur t).
Proof.
  revert cur; induction t as [|c t IH]; intros cur H; [discriminate|].
  cbn [no_blank_line] in H. cbn [split_go].
  destruct (strip_prefix [nl; nl] (c :: t)) eqn:E.
  - pose proof (split_go_not_nil [nl; nl] (length [nl; nl] - 1) [] t) as Hn.
    destruct (split_go [nl; nl] (length [nl; nl] - 1) [] t);
      [congruence | simpl; lia].
  - apply IH. apply andb_false_iff in H. destruct H as [H|H]; [|exact H].
    exfalso. destruct t as [|d t]; [discriminate|].
    apply negb_false_iff, andb_true_iff in H. destruct H as [H1 H2].
    cbn [strip_prefix] in E. rewrite H1, H2 in E. discriminate.
Qed.

Lemma split_paragraphs_cases (t : text) :
  (no_blank_line t = true <-> length (split [nl; nl] t) <= 1)
  /\ split_paragraphs t
     = if no_blank_line t then split [nl] t else split [nl; nl] t.
Proof.
  unfold split_paragraphs, split. cbv zeta.
  destruct (no_blank_line t) eqn:H.
  - rewrite (split_go_no_blank_line [] t H). cbn [length Nat.leb].
    split; [split; intros _; [lia | reflexivity] | reflexivity].
  - pose proof (split_go_blank_line [] t H) as L. split.
    + split; [discriminate | lia].
    + destruct (length (split_go [nl; nl] 0 [] t) <=? 1) eqn:E;
        [apply Nat.leb_le in E; lia | reflexivity].
Qed.

(** C8 (as amended).  The text tier cleans the body text, splits it at
    blank lines and, when that gives at most one segment, which is when the
    text has no blank line, at single newlines instead; it drops the
    segments that are blank, and renders every other segment, trimmed and
    escaped, as one paragraph element, in order and with nothing in between.
    Paragraphs joined by blank lines are split back into themselves, single
    newlines inside them included, and so are lines joined by single
    newlines when no line between two others is empty. *)
Theorem text_tier_paragraphs :
  (forall bt : option text,
      text_tier bt
      = concat
          (List.map (fun p => py "<p>" ++ escape (strip p) ++ py "</p>")
             (filter (fun p => truthy (strip p))
                (split_paragraphs
                   (clean_body_str (or_else bt no_content))))))
  /\ (forall t : text,
         (no_blank_line t = true <-> length (split [nl; nl] t) <= 1)
         /\ split_paragraphs t
            = if no_blank_line t then split [nl] t else split [nl; nl] t)
  /\ (forall ps : list text,
         2 <= length ps -> Forall paragraph ps ->
         split_paragraphs (join [nl; nl] ps) = ps)
  /\ (forall ls : list text,
         ls <> [] -> Forall one_line ls ->
         no_blank_line (join [nl] ls) = true ->
         split_paragraphs (join [nl] ls) = ls)
  /\ (forall ls : list text,
         ls <> [] -> Forall (fun l => one_line l /\ l <> []) ls ->
         split_paragraphs (join [nl] ls) = ls)
  /\ (forall ps qs : list text,
         render_paragraphs (ps ++ qs)
         = render_paragraphs ps ++ render_paragraphs qs)
  /\ (forall p : text,
         render_paragraphs [p]
         = if truthy (strip p)
           then py "<p>" ++ escape (strip p) ++ py "</p>" else [])
  /\ text_tier (Some (py "First one." ++ [nl; nl] ++ py "Second one."))
     = py "<p>First one.</p><p>Second one.</p>"
  /\ text_tier (Some (py "a" ++ [nl] ++ py "b" ++ [nl; nl] ++ py "c"))
     = py "<p>a" ++ [nl] ++ py "b</p><p>c</p>"
  /\ text_tier (Some (py "a" ++ [nl] ++ py "b"))
     = py "<p>a</p><p>b</p>".
Proof.
  split; [reflexivity|].
  split; [exact split_paragraphs_cases|].
  split.
  { intros ps Hlen Hps. unfold split_paragraphs, split.
    destruct ps as [|p ps]; [simpl in Hlen; lia|].
    rewrite split_go_join_paragraphs by assumption.
    simpl in Hlen. destruct ps; [simpl in Hlen; lia | reflexivity]. }
  split.
  { intros ls Hne Hls Hnb.
    rewrite (proj2 (split_paragraphs_cases (join [nl] ls))), Hnb.
    destruct ls as [|l ls]; [congruence|].
    apply (split_go_join_nl [] l ls Hls). }
  split.
  { intros ls Hne Hls. unfold split_paragraphs, split.
    destruct ls as [|l ls]; [congruence|].
    rewrite split_go_lines_nlnl by assumption.
    cbn [length Nat.leb].
    apply split_go_join_nl.
    eapply Forall_impl; [|exact Hls]. intros a [Ha _]; exact Ha. }
  split; [apply render_paragraphs_app|].
  split.
  { intros p. unfold render_paragraphs. simpl.
    destruct (truthy (strip p)); simpl; [rewrite app_nil_r|]; reflexivity. }
  split; [vm_compute; reflexivity|].
  split; vm_compute; reflexivity.
Qed.

(** ** The content selector, text side *)

(** C1.  The selector returns the placeholder paragraph for a post without
    [body_html] and [body_text], but it returns the empty string for a post
    whose body text is blank, or is boilerplate from its first character. *)
Theorem get_display_html_empty_output :
  get_display_html blank_post = []
  /\ get_display_html junk_only_post = []
  /\ get_display_html empty_post = py "<p>No content available.</p>".
Proof. repeat split; vm_compute; reflexivity. Qed.

(** C6.  A post of the pre-clean era with a non-empty [body_html] is
    displayed as that [body_html], unchanged. *)
Theorem get_display_html_preclean (p : post) (h : text) :
  era p = Some (py "nextjs_v2") ->
  body_html p = Some h ->
  truthy h = true ->
  get_display_html p = h.
Proof.
  intros He Hh Ht. unfold get_display_html.
  rewrite He, Hh.
  assert (E : or_else (Some h) [] = h) by (unfold or_else; rewrite Ht; reflexivity).
  rewrite E.
  change (or_else (Some (py "nextjs_v2")) []) with (py "nextjs_v2").
  rewrite text_eqb_refl, Ht. reflexivity.
Qed.

(** ** Trees *)

Section TreeInduction.

Variable I : Type.
Variable P : tree I -> Prop.
Hypothesis P_tag : forall i n a cs, Forall P cs -> P (Tag i n a cs).
Hypothesis P_str : forall i k s, P (Str i k s).

Fixpoint tree_forall_ind (t : tree I) : P t :=
  match t with
  | Tag i n a cs =>
      P_tag i n a cs
        ((fix go (l : list (tree I)) : Forall P l :=
            match l with
            | [] => Forall_nil P
            | x :: l' => Forall_cons x (tree_forall_ind x) (go l')
            end) cs)
  | Str i k s => P_str i k s
  end.

End TreeInduction.

Lemma flat_map_ext_in {A B} (f g : A -> list B) (l : list A) :
  (forall x, In x l -> f x = g x) -> flat_map f l = flat_map g l.
Proof.
  induction l as [|x l IH]; intros H; simpl; [reflexivity|].
  rewrite (H x (or_introl eq_refl)), IH; [reflexivity|].
  intros y Hy; apply H; right; exact Hy.
Qed.

Lemma flat_map_comp {A B C} (f : A -> list B) (g : B -> list C) (l : list A) :
  flat_map g (flat_map f l) = flat_map (fun x => flat_map g (f x)) l.
Proof.
  induction l as [|x l IH]; simpl; [reflexivity|].
  rewrite flat_map_app, IH; reflexivity.
Qed.

Lemma flat_map_singleton {A} (l : list A) : flat_map (fun x => [x]) l = l.
Proof. induction l as [|x l IH]; simpl; congruence. Qed.

Lemma in_descendants {I} (f : list (tree I)) (t : tree I) (h : I * label) :
  In t f -> In h (heads t) -> In h (descendants f).
Proof. intros Ht Hh; apply in_flat_map; exists t; auto. Qed.

Lemma in_heads_child {I} i n a (cs : list (tree I)) t h :
  In t cs -> In h (heads t) -> In h (heads (Tag i n a cs)).
Proof. intros Ht Hh; simpl; right; apply (in_descendants cs t h Ht Hh). Qed.

(** *** Subsequences *)

Lemma subseq_refl {A} (l : list A) : subseq l l.
Proof. induction l; constructor; assumption. Qed.

Lemma subseq_nil_l {A} (l : list A) : subseq [] l.
Proof. induction l; constructor; assumption. Qed.

Lemma subseq_app {A} (a a' b b' : list A) :
  subseq a a' -> subseq b b' -> subseq (a ++ b) (a' ++ b').
Proof.
  intros Ha Hb; induction Ha; simpl; [exact Hb | |]; constructor; assumption.
Qed.

Lemma subseq_in {A} (l1 l2 : list A) x : subseq l1 l2 -> In x l1 -> In x l2.
Proof.
  induction 1; simpl; [intros [] | intros; right; auto |].
  intros [-> | H']; [left; reflexivity | right; auto].
Qed.

Lemma subseq_map {A B} (f : A -> B) l1 l2 :
  subseq l1 l2 -> subseq (List.map f l1) (List.map f l2).
Proof. induction 1; simpl; constructor; assumption. Qed.

Lemma subseq_nodup {A} (l1 l2 : list A) :
  subseq l1 l2 -> NoDup l2 -> NoDup l1.
Proof.
  induction 1 as [|x l1 l2 H IH|x l1 l2 H IH]; intros Hnd.
  - constructor.
  - inversion Hnd; auto.
  - inversion Hnd as [|? ? Hx Hl2]; subst. constructor; [|auto].
    intros Hin; apply Hx; apply (subseq_in _ _ _ H Hin).
Qed.

Lemma subseq_flat_map {A B} (f g : A -> list B) (l : list A) :
  (forall x, In x l -> subseq (f x) (g x)) ->
  subseq (flat_map f l) (flat_map g l).
Proof.
  induction l as [|x l IH]; intros H; simpl; [constructor|].
  apply subseq_app; [apply H; left; reflexivity|].
  apply IH; intros y Hy; apply H; right; exact Hy.
Qed.

Lemma nodup_fst_unique {B} (l : list (nat * B)) (h1 h2 : nat * B) :
  NoDup (List.map fst l) -> In h1 l -> In h2 l -> fst h1 = fst h2 -> h1 = h2.
Proof.
  induction l as [|x l IH]; simpl; intros Hnd H1 H2 E; [destruct H1|].
  inversion Hnd as [|? ? Hx Hl]; subst.
  destruct H1 as [-> | H1], H2 as [-> | H2]; auto.
  - exfalso; apply Hx; rewrite E; apply in_map; exact H2.
  - exfalso; apply Hx; rewrite <- E; apply in_map; exact H1.
Qed.

Lemma nodup_ids_unique (f : list obj) (h1 h2 : nat * label) :
  NoDup (ids f) -> In h1 (descendants f) -> In h2 (descendants f) ->
  fst h1 = fst h2 -> h1 = h2.
Proof. apply nodup_fst_unique. Qed.

(** The references that [find_all] returns for a test [p] include the one to
    an object exactly when the object passes the test. *)
Lemma existsb_ids_filter (l : list (nat * label)) (p : nat * label -> bool)
  (h : nat * label) :
  NoDup (List.map fst l) -> In h l ->
  existsb (Nat.eqb (fst h)) (List.map fst (filter p l)) = p h.
Proof.
  intros Hnd Hh. destruct (p h) eqn:Hp.
  - apply existsb_exists. exists (fst h); split; [|apply Nat.eqb_refl].
    apply in_map, filter_In; auto.
  - destruct (existsb _ _) eqn:E; [|reflexivity].
    apply existsb_exists in E. destruct E as (j & Hj & Ej).
    apply Nat.eqb_eq in Ej. apply in_map_iff in Hj.
    destruct Hj as (h' & <- & Hh'). apply filter_In in Hh'.
    destruct Hh' as [Hin Hp'].
    rewrite (nodup_fst_unique l h h' Hnd Hh Hin Ej) in Hp. congruence.
Qed.

(** *** Removal *)

Lemma remove_ext {I} (c1 c2 : I -> label -> bool) (t : tree I) :
  (forall h, In h (heads t) -> c1 (fst h) (snd h) = c2 (fst h) (snd h)) ->
  remove c1 t = remove c2 t.
Proof.
  induction t as [i n a cs IH | i k s] using tree_forall_ind; intros H.
  - pose proof (H (i, LTag n a) (or_introl eq_refl)) as H0; simpl in H0.
    simpl. rewrite H0.
    destruct (c2 i (LTag n a)); [reflexivity|].
    do 2 f_equal. rewrite Forall_forall in IH.
    apply flat_map_ext_in; intros x Hx; apply (IH x Hx).
    intros h Hh; apply H; apply (in_heads_child i n a cs x h Hx Hh).
  - pose proof (H (i, LStr k s) (or_introl eq_refl)) as H0; simpl in H0.
    simpl. rewrite H0. reflexivity.
Qed.

Lemma remove_forest_ext {I} (c1 c2 : I -> label -> bool) (f : list (tree I)) :
  (forall h, In h (descendants f) -> c1 (fst h) (snd h) = c2 (fst h) (snd h)) ->
  flat_map (remove c1) f = flat_map (remove c2) f.
Proof.
  intros H; apply flat_map_ext_in; intros x Hx; apply remove_ext.
  intros h Hh; apply H; apply (in_descendants f x h Hx Hh).
Qed.

Lemma remove_compose {I} (c1 c2 : I -> label -> bool) (t : tree I) :
  flat_map (remove c1) (remove c2 t)
  = remove (fun i l => c1 i l || c2 i l) t.
Proof.
  induction t as [i n a cs IH | i k s] using tree_forall_ind.
  - simpl. destruct (c2 i (LTag n a)); simpl.
    + rewrite orb_true_r; reflexivity.
    + rewrite orb_false_r. destruct (c1 i (LTag n a)); [reflexivity|].
      rewrite app_nil_r. do 2 f_equal. rewrite flat_map_comp.
      rewrite Forall_forall in IH. apply flat_map_ext_in; exact IH.
  - simpl. destruct (c2 i (LStr k s)); simpl.
    + rewrite orb_true_r; reflexivity.
    + rewrite orb_false_r. destruct (c1 i (LStr k s)); reflexivity.
Qed.

Lemma remove_forest_compose {I} (c1 c2 : I -> label -> bool)
  (f : list (tree I)) :
  flat_map (remove c1) (flat_map (remove c2) f)
  = flat_map (remove (fun i l => c1 i l || c2 i l)) f.
Proof.
  rewrite flat_map_comp. apply flat_map_ext_in.
  intros x _; apply remove_compose.
Qed.

Lemma remove_forest_none {I} (c : I -> label -> bool) (f : list (tree I)) :
  (forall h, In h (descendants f) -> c (fst h) (snd h) = false) ->
  flat_map (remove c) f = f.
Proof.
  intros H.
  rewrite (remove_forest_ext c (fun _ _ => false) f H).
  rewrite <- (flat_map_singleton f) at 2.
  apply flat_map_ext_in; intros t _.
  induction t as [i n a cs IH | i k s] using tree_forall_ind;
    simpl; [|reflexivity].
  do 2 f_equal. rewrite <- (flat_map_singleton cs) at 2.
  rewrite Forall_forall in IH. apply flat_map_ext_in; exact IH.
Qed.

Lemma remove_heads {I} (c : I -> label -> bool) (t : tree I) :
  subseq (descendants (remove c t)) (heads t).
Proof.
  induction t as [i n a cs IH | i k s] using tree_forall_ind.
  - simpl. destruct (c i (LTag n a)); [apply subseq_nil_l|].
    unfold descendants; simpl. rewrite app_nil_r. apply subseq_keep.
    rewrite flat_map_comp. rewrite Forall_forall in IH.
    apply subseq_flat_map; exact IH.
  - simpl. destruct (c i (LStr k s)); [apply subseq_nil_l|].
    unfold descendants; simpl. apply subseq_refl.
Qed.

Lemma remove_descendants {I} (c : I -> label -> bool) (f : list (tree I)) :
  subseq (descendants (flat_map (remove c) f)) (descendants f).
Proof.
  unfold descendants. rewrite flat_map_comp.
  apply subseq_flat_map; intros x _; apply remove_heads.
Qed.

Lemma remove_nodup (c : nat -> label -> bool) (f : list obj) :
  NoDup (ids f) -> NoDup (ids (flat_map (remove c) f)).
Proof.
  apply subseq_nodup, subseq_map, remove_descendants.
Qed.

(** *** Unwrapping *)

Lemma unwrap_ext {I} (c1 c2 : I -> label -> bool) (t : tree I) :
  (forall h, In h (heads t) -> c1 (fst h) (snd h) = c2 (fst h) (snd h)) ->
  unwrap c1 t = unwrap c2 t.
Proof.
  induction t as [i n a cs IH | i k s] using tree_forall_ind; intros H;
    [|reflexivity].
  pose proof (H (i, LTag n a) (or_introl eq_refl)) as H0; simpl in H0.
  simpl. rewrite H0.
  assert (E : flat_map (unwrap c1) cs = flat_map (unwrap c2) cs).
  { rewrite Forall_forall in IH.
    apply flat_map_ext_in; intros x Hx; apply (IH x Hx).
    intros h Hh; apply H; apply (in_heads_child i n a cs x h Hx Hh). }
  rewrite E; reflexivity.
Qed.

Lemma unwrap_forest_ext {I} (c1 c2 : I -> label -> bool) (f : list (tree I)) :
  (forall h, In h (descendants f) -> c1 (fst h) (snd h) = c2 (fst h) (snd h)) ->
  flat_map (unwrap c1) f = flat_map (unwrap c2) f.
Proof.
  intros H; apply flat_map_ext_in; intros x Hx; apply unwrap_ext.
  intros h Hh; apply H; apply (in_descendants f x h Hx Hh).
Qed.

Lemma unwrap_compose {I} (c1 c2 : I -> label -> bool) (t : tree I) :
  flat_map (unwrap c1) (unwrap c2 t)
  = unwrap (fun i l => c1 i l || c2 i l) t.
Proof.
  induction t as [i n a cs IH | i k s] using tree_forall_ind;
    [|reflexivity].
  rewrite Forall_forall in IH.
  assert (E : flat_map (unwrap c1) (flat_map (unwrap c2) cs)
              = flat_map (unwrap (fun i l => c1 i l || c2 i l)) cs).
  { rewrite flat_map_comp. apply flat_map_ext_in; exact IH. }
  simpl. destruct (c2 i (LTag n a)); simpl.
  - rewrite orb_true_r; exact E.
  - rewrite orb_false_r, app_nil_r, E.
    destruct (c1 i (LTag n a)); reflexivity.
Qed.

Lemma unwrap_forest_compose {I} (c1 c2 : I -> label -> bool)
  (f : list (tree I)) :
  flat_map (unwrap c1) (flat_map (unwrap c2) f)
  = flat_map (unwrap (fun i l => c1 i l || c2 i l)) f.
Proof.
  rewrite flat_map_comp. apply flat_map_ext_in.
  intros x _; apply unwrap_compose.
Qed.

Lemma unwrap_forest_none {I} (c : I -> label -> bool) (f : list (tree I)) :
  (forall h, In h (descendants f) -> c (fst h) (snd h) = false) ->
  flat_map (unwrap c) f = f.
Proof.
  intros H.
  rewrite (unwrap_forest_ext c (fun _ _ => false) f H).
  rewrite <- (flat_map_singleton f) at 2.
  apply flat_map_ext_in; intros t _.
  induction t as [i n a cs IH | i k s] using tree_forall_ind;
    simpl; [|reflexivity].
  do 2 f_equal. rewrite <- (flat_map_singleton cs) at 2.
  rewrite Forall_forall in IH. apply flat_map_ext_in; exact IH.
Qed.

Lemma unwrap_heads {I} (c : I -> label -> bool) (t : tree I) :
  subseq (descendants (unwrap c t)) (heads t).
Proof.
  induction t as [i n a cs IH | i k s] using tree_forall_ind.
  - rewrite Forall_forall in IH.
    assert (E : subseq (descendants (flat_map (unwrap c) cs))
                  (flat_map heads cs)).
    { unfold descendants. rewrite flat_map_comp.
      apply subseq_flat_map; exact IH. }
    simpl. destruct (c i (LTag n a)); [apply subseq_skip; exact E|].
    unfold descendants; simpl. rewrite app_nil_r.
    apply subseq_keep; exact E.
  - unfold descendants; simpl. apply subseq_refl.
Qed.

Lemma unwrap_descendants {I} (c : I -> label -> bool) (f : list (tree I)) :
  subseq (descendants (flat_map (unwrap c) f)) (descendants f).
Proof.
  unfold descendants. rewrite flat_map_comp.
  apply subseq_flat_map; intros x _; apply unwrap_heads.
Qed.

Lemma unwrap_nodup (c : nat -> label -> bool) (f : list obj) :
  NoDup (ids f) -> NoDup (ids (flat_map (unwrap c) f)).
Proof.
  apply subseq_nodup, subseq_map, unwrap_descendants.
Qed.

(** *** Attributes *)

Lemma amap_ext {I} (u1 u2 : I -> text -> attrs_t -> attrs_t) (t : tree I) :
  (forall i n a, In (i, LTag n a) (heads t) -> u1 i n a = u2 i n a) ->
  amap u1 t = amap u2 t.
Proof.
  induction t as [i n a cs IH | i k s] using tree_forall_ind; intros H;
    [|reflexivity].
  simpl. rewrite (H i n a (or_introl eq_refl)). f_equal.
  rewrite Forall_forall in IH. apply map_ext_in; intros x Hx.
  apply (IH x Hx). intros j m b Hj.
  apply H; apply (in_heads_child i n a cs x _ Hx Hj).
Qed.

Lemma amap_forest_ext {I} (u1 u2 : I -> text -> attrs_t -> attrs_t)
  (f : list (tree I)) :
  (forall i n a, In (i, LTag n a) (descendants f) -> u1 i n a = u2 i n a) ->
  List.map (amap u1) f = List.map (amap u2) f.
Proof.
  intros H; apply map_ext_in; intros x Hx; apply amap_ext.
  intros i n a Hi; apply H; apply (in_descendants f x _ Hx Hi).
Qed.

Lemma amap_compose {I} (u1 u2 : I -> text -> attrs_t -> attrs_t) (t : tree I) :
  amap u2 (amap u1 t) = amap (fun i n a => u2 i n (u1 i n a)) t.
Proof.
  induction t as [i n a cs IH | i k s] using tree_forall_ind;
    [|reflexivity].
  simpl. f_equal. rewrite map_map.
  rewrite Forall_forall in IH. apply map_ext_in; exact IH.
Qed.

Lemma amap_id {I} (t : tree I) : amap (fun _ _ a => a) t = t.
Proof.
  induction t as [i n a cs IH | i k s] using tree_forall_ind;
    [|reflexivity].
  simpl. f_equal. rewrite <- (map_id cs) at 2.
  rewrite Forall_forall in IH. apply map_ext_in; exact IH.
Qed.

Lemma amap_ids {I} (u : I -> text -> attrs_t -> attrs_t) (t : tree I) :
  List.map fst (heads (amap u t)) = List.map fst (heads t).
Proof.
  induction t as [i n a cs IH | i k s] using tree_forall_ind;
    [|reflexivity].
  simpl. f_equal. rewrite Forall_forall in IH.
  induction cs as [|c cs IHcs]; simpl; [reflexivity|].
  repeat rewrite map_app. rewrite (IH c (or_introl eq_refl)), IHcs;
    [reflexivity|].
  intros x Hx; apply IH; right; exact Hx.
Qed.

Lemma amap_forest_ids {I} (u : I -> text -> attrs_t -> attrs_t)
  (f : list (tree I)) :
  ids (List.map (amap u) f) = ids f.
Proof.
  unfold ids, descendants. induction f as [|t f IH]; simpl; [reflexivity|].
  repeat rewrite map_app. rewrite amap_ids, IH; reflexivity.
Qed.

(** *** References *)

Lemma deref_some (i : nat) (f : list obj) (h : nat * label) :
  deref i f = Some h -> In h (descendants f) /\ fst h = i.
Proof.
  unfold deref; intros H. apply find_some in H.
  destruct H as [Hin E]; apply Nat.eqb_eq in E; auto.
Qed.

Lemma deref_none (i : nat) (f : list obj) (h : nat * label) :
  deref i f = None -> In h (descendants f) -> Nat.eqb (fst h) i = false.
Proof.
  unfold deref; intros H Hin. apply (find_none _ _ H h Hin).
Qed.

(** ** The loops of the sanitizer, as tree rewrites *)

Arguments keep_attrs : simpl never.

Lemma filter_all {A} (p : A -> bool) (l : list A) :
  (forall x, In x l -> p x = true) -> filter p l = l.
Proof.
  induction l as [|x l IH]; intros H; simpl; [reflexivity|].
  rewrite (H x (or_introl eq_refl)), IH; [reflexivity|].
  intros y Hy; apply H; right; exact Hy.
Qed.

Lemma filter_twice {A} (p q : A -> bool) (l : list A) :
  filter p (filter q l) = filter (fun x => q x && p x) l.
Proof.
  induction l as [|x l IH]; simpl; [reflexivity|].
  destruct (q x); simpl; [destruct (p x)|]; rewrite IH; reflexivity.
Qed.

Lemma mem_text_in (x : text) (l : list text) :
  mem_text x l = true <-> In x l.
Proof.
  unfold mem_text. rewrite existsb_exists. split.
  - intros (y & Hy & E). apply text_eqb_eq in E; subst; exact Hy.
  - intros H; exists x; split; [exact H | apply text_eqb_refl].
Qed.

Lemma text_eqb_sym (a b : text) : text_eqb a b = text_eqb b a.
Proof.
  destruct (text_eqb a b) eqn:E1, (text_eqb b a) eqn:E2; auto.
  - apply text_eqb_eq in E1; subst. rewrite text_eqb_refl in E2; congruence.
  - apply text_eqb_eq in E2; subst. rewrite text_eqb_refl in E1; congruence.
Qed.

Lemma mem_text_cons (x k : text) (ks : list text) :
  mem_text x (k :: ks) = text_eqb x k || mem_text x ks.
Proof. reflexivity. Qed.

Lemma strip_attrs_fold (allowed ks : list text) (cur : attrs_t) :
  fold_left
    (fun cur attr => if mem_text attr allowed then cur else del_attr attr cur)
    ks cur
  = filter (fun kv => mem_text (fst kv) allowed || negb (mem_text (fst kv) ks))
      cur.
Proof.
  revert cur; induction ks as [|k ks IH]; intros cur; cbn [fold_left].
  - symmetry; apply filter_all; intros x _; apply orb_true_r.
  - rewrite IH. destruct (mem_text k allowed) eqn:Hk.
    + apply filter_ext; intros [x v]; cbn [fst].
      rewrite (mem_text_cons x k ks).
      destruct (text_eqb x k) eqn:E; [|reflexivity].
      apply text_eqb_eq in E; subst. rewrite Hk; reflexivity.
    + unfold del_attr. rewrite filter_twice.
      apply filter_ext; intros [x v]; cbn [fst].
      rewrite (mem_text_cons x k ks).
      destruct (text_eqb x k) eqn:E; [|reflexivity].
      apply text_eqb_eq in E; subst. rewrite Hk; reflexivity.
Qed.

Lemma strip_attrs_keep (name : text) (a : attrs_t) :
  strip_attrs name a = keep_attrs name a.
Proof.
  unfold strip_attrs, keep_attrs. rewrite strip_attrs_fold.
  apply filter_ext_in; intros [x v] Hx; simpl.
  assert (E : mem_text x (List.map fst a) = true).
  { apply mem_text_in, in_map_iff. exists (x, v); auto. }
  rewrite E, orb_false_r; reflexivity.
Qed.

Lemma keep_attrs_idem (name : text) (a : attrs_t) :
  keep_attrs name (keep_attrs name a) = keep_attrs name a.
Proof.
  unfold keep_attrs. rewrite filter_twice. apply filter_ext.
  intros x; apply andb_diag.
Qed.

Lemma decompose_fold (refs : list nat) (f : list obj) :
  fold_left (fun cur i => decompose i cur) refs f
  = flat_map (remove (fun j _ => existsb (Nat.eqb j) refs)) f.
Proof.
  revert f; induction refs as [|i refs IH]; intros f; simpl.
  - symmetry; apply remove_forest_none; reflexivity.
  - rewrite IH. unfold decompose. rewrite remove_forest_compose.
    apply remove_forest_ext; intros h _; apply orb_comm.
Qed.

Lemma nuke_loop_spec (f : list obj) :
  NoDup (ids f) -> nuke_loop f = flat_map (remove (fun _ => nuked)) f.
Proof.
  intros Hnd. unfold nuke_loop, find_all_named. rewrite decompose_fold.
  apply remove_forest_ext; intros h Hh.
  rewrite (existsb_ids_filter (descendants f) _ h Hnd Hh).
  unfold nuked; destruct (snd h); reflexivity.
Qed.

Lemma comment_loop_spec (f : list obj) :
  NoDup (ids f) -> comment_loop f = flat_map (remove (fun _ => is_comment)) f.
Proof.
  intros Hnd. unfold comment_loop, find_all_comments. rewrite decompose_fold.
  apply remove_forest_ext; intros h Hh.
  rewrite (existsb_ids_filter (descendants f) _ h Hnd Hh).
  unfold is_comment; destruct (snd h) as [|[]]; reflexivity.
Qed.

(** One iteration of a loop that tests the tag behind a reference and then
    rewrites the tree at that tag: with distinct identities, it acts on the
    tags that have the identity and pass the test. *)
Lemma step_at_reference (test : label -> bool) (cur : list obj) (i : nat)
  (h : nat * label) :
  NoDup (ids cur) -> In h (descendants cur) -> fst h = i ->
  forall h', In h' (descendants cur) ->
             Nat.eqb (fst h') i && test (snd h')
             = Nat.eqb (fst h') i && test (snd h).
Proof.
  intros Hnd Hh Hi h' Hh'.
  destruct (Nat.eqb_spec (fst h') i) as [E|]; [|reflexivity].
  rewrite (nodup_ids_unique cur h' h Hnd Hh' Hh) by congruence.
  reflexivity.
Qed.

Lemma junk_step_spec (cur : list obj) (i : nat) :
  NoDup (ids cur) ->
  junk_step cur i = flat_map (remove (fun j l => Nat.eqb j i && junk l)) cur.
Proof.
  intros Hnd. unfold junk_step.
  destruct (deref i cur) as [h|] eqn:E.
  - destruct (deref_some i cur h E) as [Hh Hi].
    pose proof (step_at_reference junk cur i h Hnd Hh Hi) as Hstep.
    destruct h as [i' [n a|k s]]; cbn [fst snd junk] in *.
    + destruct (junk_attrs a) eqn:J.
      * unfold decompose. apply remove_forest_ext; intros h' Hh'.
        rewrite (Hstep h' Hh'), andb_true_r; reflexivity.
      * symmetry; apply remove_forest_none; intros h' Hh'.
        rewrite (Hstep h' Hh'); apply andb_false_r.
    + symmetry; apply remove_forest_none; intros h' Hh'.
      rewrite (Hstep h' Hh'); apply andb_false_r.
  - symmetry; apply remove_forest_none; intros h' Hh'.
    rewrite (deref_none i cur h' E Hh'); reflexivity.
Qed.

Lemma junk_fold (refs : list nat) (cur : list obj) :
  NoDup (ids cur) ->
  fold_left junk_step refs cur
  = flat_map (remove (fun j l => existsb (Nat.eqb j) refs && junk l)) cur.
Proof.
  revert cur; induction refs as [|i refs IH]; intros cur Hnd; simpl.
  - symmetry; apply remove_forest_none; reflexivity.
  - rewrite junk_step_spec by exact Hnd.
    rewrite IH by (apply remove_nodup; exact Hnd).
    rewrite remove_forest_compose.
    apply remove_forest_ext; intros h _.
    destruct (existsb _ refs), (Nat.eqb (fst h) i), (junk (snd h));
      reflexivity.
Qed.

Lemma tag_is_found (f : list obj) (h : nat * label) :
  NoDup (ids f) -> In h (descendants f) ->
  existsb (Nat.eqb (fst h)) (find_all_tags f) = is_tag h.
Proof. intros Hnd Hh; apply (existsb_ids_filter _ is_tag h Hnd Hh). Qed.

Lemma junk_loop_spec (f : list obj) :
  NoDup (ids f) -> junk_loop f = flat_map (remove (fun _ => junk)) f.
Proof.
  intros Hnd. unfold junk_loop. rewrite junk_fold by exact Hnd.
  apply remove_forest_ext; intros h Hh.
  rewrite (tag_is_found f h Hnd Hh).
  unfold is_tag, junk; destruct (snd h); reflexivity.
Qed.

Lemma unwrap_step_spec (cur : list obj) (i : nat) :
  NoDup (ids cur) ->
  unwrap_step cur i
  = flat_map (unwrap (fun j l => Nat.eqb j i && disallowed l)) cur.
Proof.
  intros Hnd. unfold unwrap_step.
  destruct (deref i cur) as [h|] eqn:E.
  - destruct (deref_some i cur h E) as [Hh Hi].
    pose proof (step_at_reference disallowed cur i h Hnd Hh Hi) as Hstep.
    destruct h as [i' [n a|k s]]; cbn [fst snd disallowed] in *.
    + destruct (mem_text n ALLOWED_TAGS) eqn:J; cbn [negb] in Hstep.
      * symmetry; apply unwrap_forest_none; intros h' Hh'.
        rewrite (Hstep h' Hh'); apply andb_false_r.
      * unfold unwrap_tag. apply unwrap_forest_ext; intros h' Hh'.
        rewrite (Hstep h' Hh'), andb_true_r; reflexivity.
    + symmetry; apply unwrap_forest_none; intros h' Hh'.
      rewrite (Hstep h' Hh'); apply andb_false_r.
  - symmetry; apply unwrap_forest_none; intros h' Hh'.
    rewrite (deref_none i cur h' E Hh'); reflexivity.
Qed.

Lemma unwrap_fold (refs : list nat) (cur : list obj) :
  NoDup (ids cur) ->
  fold_left unwrap_step refs cur
  = flat_map (unwrap (fun j l => existsb (Nat.eqb j) refs && disallowed l))
      cur.
Proof.
  revert cur; induction refs as [|i refs IH]; intros cur Hnd; simpl.
  - symmetry; apply unwrap_forest_none; reflexivity.
  - rewrite unwrap_step_spec by exact Hnd.
    rewrite IH by (apply unwrap_nodup; exact Hnd).
    rewrite unwrap_forest_compose.
    apply unwrap_forest_ext; intros h _.
    destruct (existsb _ refs), (Nat.eqb (fst h) i), (disallowed (snd h));
      reflexivity.
Qed.

Lemma unwrap_loop_spec (f : list obj) :
  NoDup (ids f) -> unwrap_loop f = flat_map (unwrap (fun _ => disallowed)) f.
Proof.
  intros Hnd. unfold unwrap_loop. rewrite unwrap_fold by exact Hnd.
  apply unwrap_forest_ext; intros h Hh.
  rewrite (tag_is_found f h Hnd Hh).
  unfold is_tag, disallowed; destruct (snd h); reflexivity.
Qed.

Lemma attrs_step_spec (cur : list obj) (i : nat) :
  NoDup (ids cur) ->
  attrs_step cur i
  = List.map (amap (fun j n a => if Nat.eqb j i then keep_attrs n a else a))
      cur.
Proof.
  intros Hnd. unfold attrs_step.
  destruct (deref i cur) as [h|] eqn:E.
  - destruct (deref_some i cur h E) as [Hh Hi].
    destruct h as [i' [n a|k s]]; simpl in Hi; subst i'.
    + unfold set_attrs. apply amap_forest_ext; intros j m b Hj.
      destruct (Nat.eqb_spec j i) as [->|]; [|reflexivity].
      pose proof (nodup_ids_unique cur _ _ Hnd Hj Hh eq_refl) as Eq.
      inversion Eq; subst. apply strip_attrs_keep.
    + rewrite <- (map_id cur) at 1.
      apply map_ext_in; intros t Ht. rewrite <- (amap_id t) at 1.
      apply amap_ext; intros j m b Hj.
      destruct (Nat.eqb_spec j i) as [->|]; [|reflexivity].
      pose proof (nodup_ids_unique cur _ _ Hnd
                    (in_descendants cur t _ Ht Hj) Hh eq_refl) as Eq.
      discriminate Eq.
  - rewrite <- (map_id cur) at 1.
    apply map_ext_in; intros t Ht. rewrite <- (amap_id t) at 1.
    apply amap_ext; intros j m b Hj.
    pose proof (deref_none i cur _ E (in_descendants cur t _ Ht Hj)) as Hne.
    simpl in Hne; rewrite Hne; reflexivity.
Qed.

Lemma attrs_fold (refs : list nat) (cur : list obj) :
  NoDup (ids cur) ->
  fold_left attrs_step refs cur
  = List.map
      (amap (fun j n a =>
               if existsb (Nat.eqb j) refs then keep_attrs n a else a)) cur.
Proof.
  revert cur; induction refs as [|i refs IH]; intros cur Hnd; simpl.
  - rewrite <- (map_id cur) at 1.
    apply map_ext; intros t; symmetry; apply amap_id.
  - rewrite attrs_step_spec by exact Hnd.
    rewrite IH by (rewrite amap_forest_ids; exact Hnd).
    rewrite map_map. apply map_ext; intros t.
    rewrite amap_compose. apply amap_ext; intros j n a _.
    destruct (Nat.eqb j i), (existsb (Nat.eqb j) refs); simpl;
      try reflexivity.
    apply keep_attrs_idem.
Qed.

Lemma attrs_loop_spec (f : list obj) :
  NoDup (ids f) -> attrs_loop f = List.map (amap (fun _ => keep_attrs)) f.
Proof.
  intros Hnd. unfold attrs_loop. rewrite attrs_fold by exact Hnd.
  apply amap_forest_ext; intros j n a Hj.
  pose proof (tag_is_found f _ Hnd Hj) as E; cbn [fst] in E.
  rewrite E. reflexivity.
Qed.

(** *** Allocation and the document behind the objects *)

Lemma alloc_tag (n : nat) (i : unit) name attrs (cs : list node) :
  alloc n (Tag i name attrs cs)
  = (Tag n name attrs (fst (alloc_forest (S n) cs)),
     snd (alloc_forest (S n) cs)).
Proof.
  cbn [alloc].
  change ((fix alloc_list (n0 : nat) (l : list node) {struct l} :
             list obj * nat :=
             match l with
             | [] => ([], n0)
             | c :: l' =>
                 let (c', n1) := alloc n0 c in
                 let (l'', n2) := alloc_list n1 l' in (c' :: l'', n2)
             end) (S n) cs)
    with (alloc_forest (S n) cs).
  destruct (alloc_forest (S n) cs); reflexivity.
Qed.

Lemma alloc_forest_cons (n : nat) (t : node) (f : list node) :
  alloc_forest n (t :: f)
  = (fst (alloc n t) :: fst (alloc_forest (snd (alloc n t)) f),
     snd (alloc_forest (snd (alloc n t)) f)).
Proof.
  simpl. destruct (alloc n t) as [t' n1]; simpl.
  destruct (alloc_forest n1 f); reflexivity.
Qed.

Lemma view_alloc (t : node) : forall n, view (fst (alloc n t)) = t.
Proof.
  induction t as [i name attrs cs IH | i k s] using tree_forall_ind;
    intros n.
  - rewrite alloc_tag; destruct i; simpl. f_equal.
    generalize (S n) as m.
    induction IH as [|c cs Hc _ IHcs]; intros m; [reflexivity|].
    rewrite alloc_forest_cons; simpl. rewrite Hc, IHcs; reflexivity.
  - destruct i; reflexivity.
Qed.

Lemma view_alloc_forest (f : list node) :
  forall n, List.map view (fst (alloc_forest n f)) = f.
Proof.
  induction f as [|t f IH]; intros n; [reflexivity|].
  rewrite alloc_forest_cons; simpl. rewrite view_alloc, IH; reflexivity.
Qed.

Lemma alloc_forest_numbered (f : list node) :
  Forall numbered f ->
  forall n,
    ids (fst (alloc_forest n f)) = seq n (snd (alloc_forest n f) - n)
    /\ n <= snd (alloc_forest n f).
Proof.
  unfold ids, descendants.
  induction 1 as [|t f Ht _ IH]; intros n.
  - simpl. rewrite Nat.sub_diag; auto.
  - rewrite alloc_forest_cons; simpl.
    destruct (Ht n) as [E1 L1].
    destruct (IH (snd (alloc n t))) as [E2 L2].
    rewrite map_app, E1, E2. split; [|lia].
    replace (snd (alloc_forest (snd (alloc n t)) f) - n)
      with ((snd (alloc n t) - n)
            + (snd (alloc_forest (snd (alloc n t)) f) - snd (alloc n t)))
      by lia.
    rewrite seq_app. do 2 f_equal. lia.
Qed.

Lemma alloc_numbered (t : node) : numbered t.
Proof.
  induction t as [i name attrs cs IH | i k s] using tree_forall_ind;
    intros n.
  - rewrite alloc_tag; simpl.
    destruct (alloc_forest_numbered cs IH (S n)) as [E L].
    unfold ids, descendants in E. rewrite E. split; [|lia].
    replace (snd (alloc_forest (S n) cs) - n)
      with (S (snd (alloc_forest (S n) cs) - S n)) by lia.
    reflexivity.
  - change (alloc n (Str i k s)) with (Str n k s, S n).
    cbn [fst snd]. replace (S n - n) with 1 by lia.
    split; [reflexivity | lia].
Qed.

Lemma alloc_forest_nodup (f : list node) (n : nat) :
  NoDup (ids (fst (alloc_forest n f))).
Proof.
  destruct (alloc_forest_numbered f) with (n := n) as [E _].
  - apply Forall_forall; intros t _; apply alloc_numbered.
  - rewrite E; apply seq_NoDup.
Qed.

Lemma label_of_view {I} (t : tree I) : label_of (view t) = label_of t.
Proof. destruct t; reflexivity. Qed.

Lemma view_remove {I} (c : label -> bool) (t : tree I) :
  List.map view (remove (fun _ => c) t) = remove (fun _ => c) (view t).
Proof.
  induction t as [i n a cs IH | i k s] using tree_forall_ind.
  - simpl. destruct (c (LTag n a)); [reflexivity|]. simpl. do 2 f_equal.
    induction IH as [|x cs Hx _ IHcs]; simpl; [reflexivity|].
    rewrite map_app, Hx, IHcs; reflexivity.
  - simpl. destruct (c (LStr k s)); reflexivity.
Qed.

Lemma view_remove_forest {I} (c : label -> bool) (f : list (tree I)) :
  List.map view (flat_map (remove (fun _ => c)) f)
  = flat_map (remove (fun _ => c)) (List.map view f).
Proof.
  induction f as [|t f IH]; simpl; [reflexivity|].
  rewrite map_app, view_remove, IH; reflexivity.
Qed.

Lemma view_unwrap {I} (c : label -> bool) (t : tree I) :
  List.map view (unwrap (fun _ => c) t) = unwrap (fun _ => c) (view t).
Proof.
  induction t as [i n a cs IH | i k s] using tree_forall_ind;
    [|reflexivity].
  assert (E : List.map view (flat_map (unwrap (fun _ => c)) cs)
              = flat_map (unwrap (fun _ => c)) (List.map view cs)).
  { induction IH as [|x cs Hx _ IHcs]; simpl; [reflexivity|].
    rewrite map_app, Hx, IHcs; reflexivity. }
  simpl. destruct (c (LTag n a)); simpl; rewrite E; reflexivity.
Qed.

Lemma view_unwrap_forest {I} (c : label -> bool) (f : list (tree I)) :
  List.map view (flat_map (unwrap (fun _ => c)) f)
  = flat_map (unwrap (fun _ => c)) (List.map view f).
Proof.
  induction f as [|t f IH]; simpl; [reflexivity|].
  rewrite map_app, view_unwrap, IH; reflexivity.
Qed.

Lemma view_amap {I} (u : text -> attrs_t -> attrs_t) (t : tree I) :
  view (amap (fun _ => u) t) = amap (fun _ => u) (view t).
Proof.
  induction t as [i n a cs IH | i k s] using tree_forall_ind;
    [|reflexivity].
  simpl. f_equal. repeat rewrite map_map.
  rewrite Forall_forall in IH. apply map_ext_in; exact IH.
Qed.

Lemma sanitize_tree_passes (doc : list node) :
  sanitize_tree doc = sanitize_passes doc.
Proof.
  unfold sanitize_tree, sanitize_passes.
  pose proof (alloc_forest_nodup doc 0) as H0.
  set (soup := fst (alloc_forest 0 doc)) in *.
  rewrite (nuke_loop_spec soup H0).
  pose proof (remove_nodup (fun _ => nuked) soup H0) as H1.
  rewrite (junk_loop_spec _ H1).
  pose proof (remove_nodup (fun _ => junk) _ H1) as H2.
  rewrite (comment_loop_spec _ H2).
  pose proof (remove_nodup (fun _ => is_comment) _ H2) as H3.
  rewrite (unwrap_loop_spec _ H3).
  pose proof (unwrap_nodup (fun _ => disallowed) _ H3) as H4.
  rewrite (attrs_loop_spec _ H4).
  rewrite map_map.
  rewrite (map_ext _ _ (view_amap keep_attrs)).
  rewrite <- map_map.
  rewrite view_unwrap_forest, view_remove_forest, view_remove_forest,
    view_remove_forest.
  unfold soup. rewrite view_alloc_forest. reflexivity.
Qed.

Lemma sanitize_tree_example : sanitize_tree example_page = example_page_sanitized.
Proof. vm_compute; reflexivity. Qed.

(** ** What the sanitizer leaves in the tree *)

Lemma remove_no_match {I} (c : label -> bool) (t : tree I) (h : I * label) :
  In h (descendants (remove (fun _ => c) t)) -> c (snd h) = false.
Proof.
  induction t as [i n a cs IH | i k s] using tree_forall_ind.
  - simpl. destruct (c (LTag n a)) eqn:E; [intros []|].
    unfold descendants; simpl. rewrite app_nil_r.
    intros [<- | H]; [exact E|].
    apply in_flat_map in H. destruct H as (x & Hx & Hh).
    apply in_flat_map in Hx. destruct Hx as (y & Hy & Hx).
    rewrite Forall_forall in IH. apply (IH y Hy).
    apply (in_descendants _ x h Hx Hh).
  - simpl. destruct (c (LStr k s)) eqn:E; [intros []|].
    unfold descendants; simpl. intros [<- | []]; exact E.
Qed.

Lemma remove_forest_no_match {I} (c : label -> bool) (f : list (tree I))
  (h : I * label) :
  In h (descendants (flat_map (remove (fun _ => c)) f)) -> c (snd h) = false.
Proof.
  intros H. apply in_flat_map in H. destruct H as (x & Hx & Hh).
  apply in_flat_map in Hx. destruct Hx as (t & _ & Hx).
  apply (remove_no_match c t h). apply (in_descendants _ x h Hx Hh).
Qed.

Lemma unwrap_no_match {I} (c : label -> bool) (t : tree I) (h : I * label) :
  In h (descendants (unwrap (fun _ => c) t)) ->
  match snd h with LTag _ _ => c (snd h) = false | LStr _ _ => True end.
Proof.
  induction t as [i n a cs IH | i k s] using tree_forall_ind.
  - rewrite Forall_forall in IH.
    assert (Hcs : In h (descendants (flat_map (unwrap (fun _ => c)) cs)) ->
                  match snd h with
                  | LTag _ _ => c (snd h) = false
                  | LStr _ _ => True
                  end).
    { intros H. apply in_flat_map in H. destruct H as (x & Hx & Hh).
      apply in_flat_map in Hx. destruct Hx as (y & Hy & Hx).
      apply (IH y Hy). apply (in_descendants _ x h Hx Hh). }
    simpl. destruct (c (LTag n a)) eqn:E; [exact Hcs|].
    unfold descendants; simpl. rewrite app_nil_r.
    intros [<- | H]; [exact E | apply Hcs; exact H].
  - unfold descendants; simpl. intros [<- | []]; exact Logic.I.
Qed.

Lemma unwrap_forest_no_match {I} (c : label -> bool) (f : list (tree I))
  (h : I * label) :
  In h (descendants (flat_map (unwrap (fun _ => c)) f)) ->
  match snd h with LTag _ _ => c (snd h) = false | LStr _ _ => True end.
Proof.
  intros H. apply in_flat_map in H. destruct H as (x & Hx & Hh).
  apply in_flat_map in Hx. destruct Hx as (t & _ & Hx).
  apply (unwrap_no_match c t h). apply (in_descendants _ x h Hx Hh).
Qed.

Lemma amap_heads {I} (u : text -> attrs_t -> attrs_t) (t : tree I) :
  heads (amap (fun _ => u) t)
  = List.map (fun h => (fst h, relabel u (snd h))) (heads t).
Proof.
  induction t as [i n a cs IH | i k s] using tree_forall_ind;
    [|reflexivity].
  simpl. f_equal.
  induction IH as [|x cs Hx _ IHcs]; simpl; [reflexivity|].
  rewrite map_app, Hx, IHcs; reflexivity.
Qed.

Lemma amap_descendants {I} (u : text -> attrs_t -> attrs_t)
  (f : list (tree I)) :
  descendants (List.map (amap (fun _ => u)) f)
  = List.map (fun h => (fst h, relabel u (snd h))) (descendants f).
Proof.
  unfold descendants. induction f as [|t f IH]; simpl; [reflexivity|].
  rewrite map_app, amap_heads, IH; reflexivity.
Qed.

Lemma sanitize_passes_sanitized (doc : list node) :
  sanitized (sanitize_passes doc).
Proof.
  unfold sanitized, sanitize_passes. intros h Hh.
  rewrite amap_descendants in Hh. apply in_map_iff in Hh.
  destruct Hh as (h0 & <- & Hh0). cbn [snd].
  pose proof (unwrap_forest_no_match _ _ _ Hh0) as Hallowed.
  pose proof (subseq_in _ _ _ (unwrap_descendants _ _) Hh0) as Hh1.
  pose proof (remove_forest_no_match _ _ _ Hh1) as Hcomment.
  destruct (snd h0) as [n a | k s];
    cbn [relabel clean_label disallowed is_comment] in *.
  - split.
    + apply mem_text_in. apply negb_false_iff in Hallowed; exact Hallowed.
    + intros k v Hkv. unfold keep_attrs in Hkv. apply filter_In in Hkv.
      apply mem_text_in. exact (proj2 Hkv).
  - intros ->; discriminate.
Qed.

Lemma allowed_not_nuked (n : text) :
  In n ALLOWED_TAGS -> mem_text n NUKED_TAGS = false.
Proof.
  assert (H : forallb (fun n => negb (mem_text n NUKED_TAGS)) ALLOWED_TAGS
              = true) by (vm_compute; reflexivity).
  rewrite forallb_forall in H. intros Hn.
  apply negb_true_iff, (H n Hn).
Qed.

Lemma lookup_attrs_cases (n : text) (d : list (text * list text)) :
  lookup_attrs n d = [] \/ In (lookup_attrs n d) (List.map snd d).
Proof.
  induction d as [|[k v] d IH]; simpl; [left; reflexivity|].
  destruct (text_eqb k n); [right; left; reflexivity|].
  destruct IH; [left | right; right]; assumption.
Qed.


Lemma class_and_id_never_allowed (n : text) :
  ~ In (py "class") (allowed_attrs n) /\ ~ In (py "id") (allowed_attrs n).
Proof.
  assert (H : forallb
                (fun l => negb (mem_text (py "class") l)
                          && negb (mem_text (py "id") l))
                (List.map snd ALLOWED_ATTRS) = true)
    by (vm_compute; reflexivity).
  rewrite forallb_forall in H. unfold allowed_attrs.
  destruct (lookup_attrs_cases n ALLOWED_ATTRS) as [-> | Hin];
    [split; intros []|].
  specialize (H _ Hin). apply andb_true_iff in H. destruct H as [H1 H2].
  apply negb_true_iff in H1, H2.
  split; intros Hc; apply mem_text_in in Hc; congruence.
Qed.

Lemma get_attr_missing (key : text) (a : attrs_t) :
  (forall k v, In (k, v) a -> k <> key) -> get_attr key a = None.
Proof.
  induction a as [|[k v] a IH]; simpl; intros H; [reflexivity|].
  destruct (text_eqb k key) eqn:E.
  - apply text_eqb_eq in E. exfalso. apply (H k v); auto.
  - apply IH; intros k' v' H'; apply (H k' v'); auto.
Qed.

Lemma clean_label_passes (l : label) :
  clean_label l ->
  nuked l = false /\ junk l = false /\ is_comment l = false
  /\ disallowed l = false /\ relabel keep_attrs l = l.
Proof.
  destruct l as [n a | k s]; simpl.
  - intros [Hn Ha].
    destruct (class_and_id_never_allowed n) as [Hclass Hid].
    repeat split.
    + apply allowed_not_nuked, Hn.
    + unfold junk_attrs.
      rewrite (get_attr_missing (py "class") a),
        (get_attr_missing (py "id") a).
      * vm_compute; reflexivity.
      * intros k v Hkv ->; apply Hid, (Ha _ _ Hkv).
      * intros k v Hkv ->; apply Hclass, (Ha _ _ Hkv).
    + apply negb_false_iff, mem_text_in, Hn.
    + f_equal. apply filter_all. intros [k v] Hkv.
      apply mem_text_in, (Ha _ _ Hkv).
  - intros Hk. repeat split. destruct k; auto; congruence.
Qed.

(** A document that is already sanitized goes through the five passes
    unchanged. *)
Lemma sanitized_fixed (f : list node) :
  sanitized f -> sanitize_passes f = f.
Proof.
  intros H. unfold sanitize_passes.
  rewrite (remove_forest_none (fun _ => nuked) f)
    by (intros h Hh; apply (clean_label_passes _ (H h Hh))).
  rewrite (remove_forest_none (fun _ => junk) f)
    by (intros h Hh; apply (clean_label_passes _ (H h Hh))).
  rewrite (remove_forest_none (fun _ => is_comment) f)
    by (intros h Hh; apply (clean_label_passes _ (H h Hh))).
  rewrite (unwrap_forest_none (fun _ => disallowed) f)
    by (intros h Hh; apply (clean_label_passes _ (H h Hh))).
  rewrite <- (map_id f) at 2. apply map_ext_in; intros t Ht.
  rewrite <- (amap_id t) at 2. apply amap_ext; intros i n a Hi.
  pose proof (clean_label_passes _ (H _ (in_descendants f t _ Ht Hi))) as Hc.
  destruct Hc as (_ & _ & _ & _ & Hc). simpl in Hc. congruence.
Qed.

Lemma sanitize_passes_app (f g : list node) :
  sanitize_passes (f ++ g) = sanitize_passes f ++ sanitize_passes g.
Proof.
  unfold sanitize_passes. rewrite !flat_map_app, map_app. reflexivity.
Qed.




(** ** [sanitize_html] and the selector *)

(** C9.  When the document parses and serializes, [sanitize_html] returns
    the trimmed serialization of the sanitized tree if that is longer than
    50 characters, and the empty string if it has 50 characters or fewer;
    for an empty argument it returns the empty string without parsing. *)
Theorem sanitize_html_threshold (raw : text) (doc : list node) (out : text) :
  truthy raw = true ->
  parse raw = Some doc ->
  decode (sanitize_tree doc) = Some out ->
  (length (strip out) <= 50 -> sanitize_html raw = Some [])
  /\ (50 < length (strip out) -> sanitize_html raw = Some (strip out))
  /\ sanitize_html [] = Some [].
Proof.
  intros Hraw Hparse Hdecode. unfold sanitize_html.
  rewrite Hraw, Hparse, Hdecode. cbn [truthy].
  repeat split.
  - intros Hle. apply Nat.ltb_ge in Hle. rewrite Hle; reflexivity.
  - intros Hlt. apply Nat.ltb_lt in Hlt. rewrite Hlt; reflexivity.
Qed.

(** C4 (as amended).  The tree rewrite of [sanitize_html] is idempotent:
    sanitizing a sanitized document changes nothing.  On strings, for every
    [x]: when what [sanitize_html] returns for [x] is empty, or is parsed by
    the HTML library to a sanitized document with the same trimmed
    serialization, sanitizing it returns it again. *)
Theorem sanitize_html_idempotent :
  (forall doc : list node,
      sanitize_tree (sanitize_tree doc) = sanitize_tree doc)
  /\ (forall x out : text,
         sanitize_html x = Some out ->
         (out <> [] ->
          exists g s,
            parse out = Some g /\ sanitized g
            /\ decode g = Some s /\ strip s = out) ->
         sanitize_html out = Some out).
Proof.
  assert (Htree : forall doc, sanitized (sanitize_tree doc)).
  { intros doc. rewrite sanitize_tree_passes.
    apply sanitize_passes_sanitized. }
  split.
  { intros doc. rewrite (sanitize_tree_passes (sanitize_tree doc)).
    apply sanitized_fixed, Htree. }
  intros x out Hx Hback.
  assert (Hnil : sanitize_html [] = Some []) by reflexivity.
  destruct out as [|c out]; [exact Hnil|].
  destruct Hback as (g & s & Hp & Hg & Hd & E); [discriminate|].
  assert (Hlen : (50 <? length (c :: out)) = true).
  { unfold sanitize_html in Hx.
    destruct (truthy x); [|discriminate].
    destruct (parse x) as [doc|]; [|discriminate].
    destruct (decode (sanitize_tree doc)) as [o|]; [|discriminate].
    destruct (50 <? length (strip o)) eqn:Hl; [|discriminate].
    injection Hx as Ho. rewrite <- Ho. exact Hl. }
  unfold sanitize_html. cbn [truthy]. rewrite Hp.
  rewrite sanitize_tree_passes, (sanitized_fixed g Hg), Hd, E, Hlen.
  reflexivity.
Qed.

(** C7.  For a post that is not of the pre-clean era, when [sanitize_html]
    returns the empty string for its [body_html] or raises, the selector
    returns the paragraphs of the body text.  The example of the
    specification: the junk [div] is removed from the tree, and with a
    library that parses the markup to that [div] and serializes the empty
    document to the empty string, the post is displayed as the paragraph of
    its body text. *)
Theorem get_display_html_fallback :
  (forall p : post,
      text_eqb (or_else (era p) []) (py "nextjs_v2") = false ->
      sanitize_html (or_else (body_html p) []) = None
      \/ sanitize_html (or_else (body_html p) []) = Some [] ->
      get_display_html p = text_tier (body_text p))
  /\ sanitize_tree ad_banner_doc = []
  /\ (parse ad_banner_markup = Some ad_banner_doc ->
      decode [] = Some [] ->
      forall e : option text,
        text_eqb (or_else e []) (py "nextjs_v2") = false ->
        get_display_html (ad_banner_post e)
        = py "<p>Real article content here.</p>").
Proof.
  assert (Hgen : forall p : post,
             text_eqb (or_else (era p) []) (py "nextjs_v2") = false ->
             sanitize_html (or_else (body_html p) []) = None
             \/ sanitize_html (or_else (body_html p) []) = Some [] ->
             get_display_html p = text_tier (body_text p)).
  { intros p He Hs. unfold get_display_html. rewrite He. cbn [andb].
    destruct (truthy (or_else (body_html p) [])); [|reflexivity].
    destruct Hs as [-> | ->]; reflexivity. }
  assert (Htree : sanitize_tree ad_banner_doc = [])
    by (vm_compute; reflexivity).
  split; [exact Hgen|]. split; [exact Htree|].
  intros Hparse Hdecode e He.
  rewrite (Hgen (ad_banner_post e) He).
  - vm_compute; reflexivity.
  - right. cbn [ad_banner_post body_html].
    unfold sanitize_html.
    change (or_else (Some ad_banner_markup) []) with ad_banner_markup.
    rewrite Hparse, Htree, Hdecode. reflexivity.
Qed.

(** ** More on the junk-pattern matcher and the text tier *)

Lemma clean_body_str_trimmed (t : text) :
  lstrip (clean_body_str t) = clean_body_str t
  /\ rstrip (clean_body_str t) = clean_body_str t.
Proof.
  unfold clean_body_str. destruct (truthy t) eqn:Ht.
  - split; [apply lstrip_strip | apply rstrip_strip].
  - apply truthy_false in Ht; subst; split; reflexivity.
Qed.

(** X1.  What [clean_body_text] returns has no whitespace at either end:
    trimming it on the left, on the right or on both sides changes
    nothing. *)
Theorem clean_body_text_trimmed (v : option text) (r : text) :
  clean_body_text v = Some r ->
  lstrip r = r /\ rstrip r = r /\ strip r = r.
Proof.
  destruct v as [t|]; [|discriminate].
  intros H; inversion H; subst r.
  destruct (clean_body_str_trimmed t) as [Hl Hr].
  split; [exact Hl|]. split; [exact Hr|].
  unfold strip. rewrite Hl. exact Hr.
Qed.

Lemma lstrip_rstrip_comm (s : text) : lstrip (rstrip s) = rstrip (lstrip s).
Proof.
  induction s as [|c s IH]; [reflexivity|].
  destruct (is_space c) eqn:Hc.
  - cbn [lstrip]. rewrite Hc, <- IH. cbn [rstrip].
    destruct (rstrip s) as [|d r]; [rewrite Hc; reflexivity|].
    cbn [lstrip]. rewrite Hc; reflexivity.
  - rewrite (rstrip_cons_keep c s Hc). cbn [lstrip]. rewrite Hc.
    symmetry; apply (rstrip_cons_keep c s Hc).
Qed.

Lemma strip_rstrip (s : text) : strip (rstrip s) = strip s.
Proof.
  unfold strip. rewrite lstrip_rstrip_comm. apply rstrip_idem.
Qed.

(** X2.  A text in which no cut pattern and no byline matches, and which
    right-trimmed does not begin with the navigation text, is only
    trimmed. *)
Theorem clean_body_text_without_markers (t : text) :
  Forall (fun p => search no_flags p t = None) cut_patterns ->
  search flag_I byline_pattern t = None ->
  match_here flag_IS nav_pattern (rstrip t) = None ->
  clean_body_text (Some t) = Some (strip t).
Proof.
  intros Hcut Hby Hnav. simpl. f_equal. unfold clean_body_str.
  destruct (truthy t) eqn:Ht.
  - rewrite (cut_loop_none _ _ Hcut). unfold strip_byline.
    rewrite (re_sub_no_match _ _ _ _ Hby). unfold strip_nav.
    rewrite Hnav. apply strip_rstrip.
  - apply truthy_false in Ht; subst; reflexivity.
Qed.

(** A text of whitespace only. *)
Lemma lstrip_nil_blank (s : text) : lstrip s = [] <-> blank s.
Proof.
  unfold blank. induction s as [|c s IH]; simpl; [split; auto|].
  destruct (is_space c); simpl; [exact IH|].
  split; discriminate.
Qed.

Lemma strip_nil_blank (s : text) : strip s = [] <-> blank s.
Proof.
  rewrite <- lstrip_nil_blank. unfold strip. split.
  - intros H. destruct (lstrip_head s) as [E | (c & z & E & Hc)]; [exact E|].
    rewrite E, (rstrip_cons_keep c z Hc) in H. discriminate.
  - intros ->; reflexivity.
Qed.

Lemma blank_app (a b : text) : blank a -> blank b -> blank (a ++ b).
Proof.
  unfold blank. intros Ha Hb. rewrite forallb_app, Ha, Hb; reflexivity.
Qed.

Lemma join_cons (sep x : text) (l : list text) :
  l <> [] -> join sep (x :: l) = x ++ sep ++ join sep l.
Proof. destruct l; [congruence | reflexivity]. Qed.

Lemma strip_prefix_some (p s rest : text) :
  strip_prefix p s = Some rest -> s = p ++ rest.
Proof.
  revert s; induction p as [|a p IH]; intros s; simpl.
  - intros H; inversion H; reflexivity.
  - destruct s as [|b s]; [discriminate|].
    unfold char_eqb. destruct (N.eqb_spec a b); [|discriminate].
    intros H; subst; f_equal; apply IH, H.
Qed.

Lemma split_go_skip sep (p : text) cur rest :
  split_go sep (length p) cur (p ++ rest) = split_go sep 0 cur rest.
Proof.
  induction p as [|c p IH]; [reflexivity | exact IH].
Qed.

(** Joining the segments of [s.split(sep)] with [sep] gives [s] back. *)
Lemma join_split_go (a : char) (sep' : text) (n : nat) :
  forall s cur, length s <= n ->
    join (a :: sep') (split_go (a :: sep') 0 cur s) = rev cur ++ s.
Proof.
  induction n as [|n IH]; intros s cur Hn.
  - destruct s; [|simpl in Hn; lia]. simpl. rewrite app_nil_r; reflexivity.
  - destruct s as [|c s]; [simpl; rewrite app_nil_r; reflexivity|].
    cbn [split_go].
    destruct (strip_prefix (a :: sep') (c :: s)) as [rest|] eqn:E.
    + apply strip_prefix_some in E. inversion E; subst.
      cbn [length Nat.sub]. rewrite Nat.sub_0_r, split_go_skip.
      rewrite join_cons by apply split_go_not_nil.
      rewrite IH by (simpl in Hn; rewrite length_app in Hn; lia).
      reflexivity.
    + rewrite IH by (simpl in Hn; lia).
      simpl. rewrite <- app_assoc. reflexivity.
Qed.

Lemma join_split (a : char) (sep' s : text) :
  join (a :: sep') (split (a :: sep') s) = s.
Proof. apply (join_split_go a sep' (length s) s []); lia. Qed.

Lemma blank_join (sep : text) (l : list text) :
  blank sep -> Forall blank l -> blank (join sep l).
Proof.
  intros Hsep Hl; induction Hl as [|x l Hx Hl' IH]; [reflexivity|].
  destruct l as [|y l]; [exact Hx|].
  change (blank (x ++ sep ++ join sep (y :: l))).
  apply blank_app; [exact Hx | apply blank_app; [exact Hsep | exact IH]].
Qed.

Lemma render_paragraphs_nil (ps : list text) :
  render_paragraphs ps = [] -> Forall blank ps.
Proof.
  unfold render_paragraphs.
  induction ps as [|p ps IH]; intros H; [constructor|].
  cbn [filter] in H. destruct (truthy (strip p)) eqn:Hp.
  - simpl in H. discriminate.
  - constructor; [|apply IH, H].
    apply strip_nil_blank, truthy_false, Hp.
Qed.

Lemma split_paragraphs_blank (u : text) :
  Forall blank (split_paragraphs u) -> blank u.
Proof.
  unfold split_paragraphs.
  destruct (length (split [nl; nl] u) <=? 1); intros H.
  - rewrite <- (join_split nl [] u). apply blank_join; [reflexivity | exact H].
  - rewrite <- (join_split nl [nl] u).
    apply blank_join; [reflexivity | exact H].
Qed.

(** X3.  The text tier returns the empty string exactly when cleaning
    leaves nothing of the body text; so a post whose cleaned body text is
    not empty is never displayed as the empty string. *)
Theorem text_tier_empty_iff (bt : option text) :
  (text_tier bt = [] <-> clean_body_str (or_else bt no_content) = [])
  /\ (forall p : post,
         clean_body_str (or_else (body_text p) no_content) <> [] ->
         get_display_html p <> []).
Proof.
  assert (Hiff : forall b,
             text_tier b = [] <-> clean_body_str (or_else b no_content) = []).
  { intros b. unfold text_tier. split.
    - intros H. apply render_paragraphs_nil, split_paragraphs_blank in H.
      apply strip_nil_blank in H.
      destruct (clean_body_str_trimmed (or_else b no_content)) as [_ Hr].
      unfold clean_body_str in *.
      destruct (truthy (or_else b no_content)) eqn:Ht.
      + rewrite strip_idem in H. exact H.
      + apply truthy_false, Ht.
    - intros ->. reflexivity. }
  split; [apply Hiff|].
  intros p Hne. unfold get_display_html.
  assert (Hfb : text_tier (body_text p) <> []).
  { intros E; apply Hne, Hiff, E. }
  destruct (text_eqb _ _ && truthy (or_else (body_html p) [])) eqn:Hpre.
  - apply andb_true_iff in Hpre. destruct Hpre as [_ Hh].
    destruct (or_else (body_html p) []); [discriminate | discriminate].
  - destruct (truthy (or_else (body_html p) [])); [|exact Hfb].
    destruct (sanitize_html (or_else (body_html p) [])) as [c|]; [|exact Hfb].
    destruct c; [exact Hfb | discriminate].
Qed.

(** The characters that [html.escape] replaces. *)
Lemma escape_char_plain (c : char) : Forall plain_text_char (escape_char c).
Proof.
  unfold escape_char, plain_text_char.
  destruct (N.eqb_spec c 38); [repeat constructor; discriminate|].
  destruct (N.eqb_spec c 60); [repeat constructor; discriminate|].
  destruct (N.eqb_spec c 62); [repeat constructor; discriminate|].
  destruct (N.eqb_spec c 34); [repeat constructor; discriminate|].
  destruct (N.eqb_spec c 39); [repeat constructor; discriminate|].
  repeat constructor; assumption.
Qed.

Lemma escape_plain (s : text) : Forall plain_text_char (escape s).
Proof.
  unfold escape. induction s as [|c s IH]; simpl; [constructor|].
  apply Forall_app; split; [apply escape_char_plain | exact IH].
Qed.

Lemma escape_not_nil (s : text) : s <> [] -> escape s <> [].
Proof.
  destruct s as [|c s]; [congruence|]. intros _. unfold escape; simpl.
  unfold escape_char.
  repeat match goal with |- context [if ?b then _ else _] => destruct b end;
    discriminate.
Qed.

(** X4.  The text tier returns a sequence of paragraph elements and nothing
    else; the content of each is not empty and has none of the characters
    [<], [>], double quote and single quote, whatever the body text holds. *)
Theorem text_tier_markup_free (bt : option text) :
  exists qs : list text,
    text_tier bt
    = concat (List.map (fun q => py "<p>" ++ q ++ py "</p>") qs)
    /\ Forall (fun q => q <> [] /\ Forall plain_text_char q) qs.
Proof.
  unfold text_tier, render_paragraphs.
  set (ps := split_paragraphs (clean_body_str (or_else bt no_content))).
  exists (List.map (fun p => escape (strip p))
            (filter (fun p => truthy (strip p)) ps)).
  split.
  - rewrite map_map. reflexivity.
  - apply Forall_forall. intros q Hq. apply in_map_iff in Hq.
    destruct Hq as (p & <- & Hp). apply filter_In in Hp.
    destruct Hp as [_ Hp]. split; [|apply escape_plain].
    apply escape_not_nil. destruct (strip p); [discriminate | discriminate].
Qed.

(** ** More on the sanitizer *)

Lemma subseq_trans {A} (l1 l2 l3 : list A) :
  subseq l1 l2 -> subseq l2 l3 -> subseq l1 l3.
Proof.
  intros H12 H23; revert l1 H12.
  induction H23 as [|x l2 l3 H IH|x l2 l3 H IH]; intros l1 H12.
  - exact H12.
  - apply subseq_skip, IH, H12.
  - inversion H12; subst; [apply subseq_skip | apply subseq_keep]; auto.
Qed.

Lemma subseq_flat_map_mono {A B} (g : A -> list B) (l1 l2 : list A) :
  subseq l1 l2 -> subseq (flat_map g l1) (flat_map g l2).
Proof.
  induction 1 as [|x l1 l2 H IH|x l1 l2 H IH]; simpl.
  - constructor.
  - apply (subseq_app [] (g x)); [apply subseq_nil_l | exact IH].
  - apply subseq_app; [apply subseq_refl | exact IH].
Qed.

Lemma label_texts_relabel (u : text -> attrs_t -> attrs_t) (l : label) :
  label_texts (relabel u l) = label_texts l
  /\ label_names (relabel u l) = label_names l.
Proof. destruct l; split; reflexivity. Qed.

Lemma texts_amap {I} (u : text -> attrs_t -> attrs_t) (f : list (tree I)) :
  texts (List.map (amap (fun _ => u)) f) = texts f
  /\ tag_names (List.map (amap (fun _ => u)) f) = tag_names f.
Proof.
  unfold texts, tag_names. rewrite amap_descendants.
  generalize (descendants f) as l. intros l.
  induction l as [|h l [IH1 IH2]]; [split; reflexivity|].
  simpl. destruct (label_texts_relabel u (snd h)) as [E1 E2].
  rewrite E1, E2, IH1, IH2. split; reflexivity.
Qed.

Lemma texts_app {I} (f g : list (tree I)) :
  texts (f ++ g) = texts f ++ texts g.
Proof.
  unfold texts, descendants. rewrite !flat_map_app. reflexivity.
Qed.

Lemma texts_unwrap {I} (c : I -> label -> bool) (t : tree I) :
  texts (unwrap c t) = texts [t].
Proof.
  induction t as [i n a cs IH | i k s] using tree_forall_ind;
    [|reflexivity].
  assert (E : texts (flat_map (unwrap c) cs) = texts cs).
  { induction IH as [|x cs Hx _ IHcs]; [reflexivity|].
    simpl. rewrite texts_app, Hx, IHcs.
    change (x :: cs) with ([x] ++ cs). rewrite texts_app. reflexivity. }
  simpl. destruct (c i (LTag n a)).
  - rewrite E. unfold texts, descendants. simpl.
    rewrite app_nil_r. reflexivity.
  - unfold texts, descendants in *. simpl. rewrite !app_nil_r.
    simpl. exact E.
Qed.

Lemma texts_unwrap_forest {I} (c : I -> label -> bool) (f : list (tree I)) :
  texts (flat_map (unwrap c) f) = texts f.
Proof.
  induction f as [|t f IH]; [reflexivity|].
  simpl. rewrite texts_app, texts_unwrap, IH.
  change (t :: f) with ([t] ++ f). rewrite texts_app. reflexivity.
Qed.

(** X5.  The sanitizer only deletes: the strings of the sanitized document
    are strings of the parsed document, unchanged and in the same order,
    and so are the names of its tags. *)
Theorem sanitize_tree_only_deletes (doc : list node) :
  subseq (texts (sanitize_tree doc)) (texts doc)
  /\ subseq (tag_names (sanitize_tree doc)) (tag_names doc).
Proof.
  rewrite sanitize_tree_passes. unfold sanitize_passes.
  destruct (texts_amap keep_attrs
              (flat_map (unwrap (fun _ : unit => disallowed))
                 (flat_map (remove (fun _ => is_comment))
                    (flat_map (remove (fun _ => junk))
                       (flat_map (remove (fun _ => nuked)) doc)))))
    as [-> ->].
  assert (H : subseq
                (descendants
                   (flat_map (unwrap (fun _ : unit => disallowed))
                      (flat_map (remove (fun _ => is_comment))
                         (flat_map (remove (fun _ => junk))
                            (flat_map (remove (fun _ => nuked)) doc)))))
                (descendants doc)).
  { eapply subseq_trans; [apply unwrap_descendants|].
    eapply subseq_trans; [apply remove_descendants|].
    eapply subseq_trans; [apply remove_descendants|].
    apply remove_descendants. }
  split; apply subseq_flat_map_mono, H.
Qed.

(** X6.  Unwrapping loses no text: the strings of the document after the
    unwrap loop are those before it, in order.  A document without a tag of
    the first loop, without a tag with a junk [class] or [id] and without a
    comment keeps all its strings through the sanitizer. *)
Theorem sanitize_tree_keeps_text (doc : list node) :
  texts (List.map view (unwrap_loop (fst (alloc_forest 0 doc)))) = texts doc
  /\ ((forall h, In h (descendants doc) ->
                 nuked (snd h) = false /\ junk (snd h) = false
                 /\ is_comment (snd h) = false) ->
      texts (sanitize_tree doc) = texts doc).
Proof.
  split.
  - rewrite (unwrap_loop_spec _ (alloc_forest_nodup doc 0)).
    rewrite view_unwrap_forest, view_alloc_forest.
    apply texts_unwrap_forest.
  - intros H. rewrite sanitize_tree_passes. unfold sanitize_passes.
    rewrite (remove_forest_none (fun _ => nuked) doc)
      by (intros h Hh; apply (H h Hh)).
    rewrite (remove_forest_none (fun _ => junk) doc)
      by (intros h Hh; apply (H h Hh)).
    rewrite (remove_forest_none (fun _ => is_comment) doc)
      by (intros h Hh; apply (H h Hh)).
    rewrite (proj1 (texts_amap keep_attrs _)).
    apply texts_unwrap_forest.
Qed.

(** X7.  The sanitizer as a recursion on the document: siblings are
    sanitized one by one; a comment gives nothing and any other string
    itself; a tag of the first loop or with a junk [class] or [id] gives
    nothing, a tag of the allow-list gives itself with the attributes of
    its allow-list and its children sanitized, and any other tag gives its
    sanitized children in its place. *)
Theorem sanitize_tree_recursion :
  sanitize_tree [] = []
  /\ (forall f g : list node,
         sanitize_tree (f ++ g) = sanitize_tree f ++ sanitize_tree g)
  /\ (forall k s,
         sanitize_tree [Str tt k s]
         = match k with SComment => [] | _ => [Str tt k s] end)
  /\ (forall n a cs,
         sanitize_tree [Tag tt n a cs]
         = if mem_text n NUKED_TAGS || junk_attrs a then []
           else if mem_text n ALLOWED_TAGS
                then [Tag tt n (keep_attrs n a) (sanitize_tree cs)]
                else sanitize_tree cs).
Proof.
  split; [reflexivity|]. split; [|split].
  - intros f g. rewrite !sanitize_tree_passes. apply sanitize_passes_app.
  - intros k s. rewrite sanitize_tree_passes. destruct k; reflexivity.
  - intros n a cs. rewrite !sanitize_tree_passes. unfold sanitize_passes.
    cbn [flat_map remove ident label_of nuked app].
    destruct (mem_text n NUKED_TAGS); [reflexivity|].
    cbn [orb flat_map remove ident label_of junk app].
    destruct (junk_attrs a); [reflexivity|].
    cbn [flat_map remove ident label_of is_comment app unwrap disallowed].
    destruct (mem_text n ALLOWED_TAGS); cbn [negb].
    + rewrite app_nil_r. reflexivity.
    + rewrite app_nil_r. reflexivity.
Qed.

(** ** The export and the selector *)

Lemma dict_total_incr (key : text) (d : list (text * Z)) :
  dict_total (dict_incr key d) = (dict_total d + 1)%Z.
Proof.
  unfold dict_total. induction d as [|[k v] d IH]; simpl; [reflexivity|].
  destruct (text_eqb k key); simpl; lia.
Qed.

Lemma deploy_fold (rows : list src_row) (acc : tally) :
  let t := fold_left deploy_step rows acc in
  batch t = batch acc ++ List.map deploy_row rows
  /\ html_kept t
     = (html_kept acc + Z.of_nat (length (filter clean_era rows)))%Z
  /\ text_only_count t
     = (text_only_count acc
        + Z.of_nat (length (filter (fun r => negb (clean_era r)) rows)))%Z
  /\ dict_total (source_counts t)
     = (dict_total (source_counts acc) + Z.of_nat (length rows))%Z.
Proof.
  revert acc; induction rows as [|r rows IH]; intros acc.
  - simpl. rewrite app_nil_r. repeat split; lia.
  - cbn [fold_left]. specialize (IH (deploy_step acc r)).
    cbv zeta in IH |- *. destruct IH as (Hb & Hk & Ht & Hs).
    rewrite Hb, Hk, Ht, Hs. clear Hb Hk Ht Hs.
    unfold deploy_step. cbn [batch html_kept text_only_count source_counts].
    rewrite dict_total_incr. cbn [filter List.map length].
    fold (clean_era r). rewrite <- app_assoc.
    split; [reflexivity|].
    destruct (clean_era r); cbn [negb length]; repeat split; lia.
Qed.

Lemma deploy_loop_batch (rows : list src_row) :
  batch (deploy_loop rows) = List.map deploy_row rows.
Proof.
  unfold deploy_loop.
  apply (deploy_fold rows
           {| html_kept := 0; text_only_count := 0; source_counts := [];
              batch := [] |}).
Qed.

(** X8.  The loop of the export writes one tuple per row, in order, with
    the row's own fields; [html_kept] counts the rows of a clean era and
    [text_only_count] the others, so the two add up to the number of rows,
    as do the counts by source. *)
Theorem deploy_loop_counts (rows : list src_row) :
  batch (deploy_loop rows) = List.map deploy_row rows
  /\ html_kept (deploy_loop rows)
     = Z.of_nat (length (filter clean_era rows))
  /\ text_only_count (deploy_loop rows)
     = Z.of_nat (length (filter (fun r => negb (clean_era r)) rows))
  /\ (html_kept (deploy_loop rows) + text_only_count (deploy_loop rows))%Z
     = Z.of_nat (length rows)
  /\ dict_total (source_counts (deploy_loop rows)) = Z.of_nat (length rows).
Proof.
  unfold deploy_loop.
  destruct (deploy_fold rows
              {| html_kept := 0; text_only_count := 0; source_counts := [];
                 batch := [] |}) as (Hb & Hk & Ht & Hs).
  cbn [batch html_kept text_only_count source_counts app] in *.
  assert (E : (length (filter clean_era rows)
               + length (filter (fun r => negb (clean_era r)) rows))%nat
              = length rows).
  { clear. induction rows as [|r rows IH]; [reflexivity|].
    simpl. destruct (clean_era r); simpl; lia. }
  rewrite Hb, Hk, Ht, Hs. repeat split; try reflexivity; lia.
Qed.

(** X9.  A post as the export writes it is displayed without the HTML
    library unless its era is one of the three clean eras: the export drops
    its [body_html], and the selector returns the paragraphs of its body
    text.  A post of a clean era is displayed from the export as it would
    be from the row of the source database. *)
Theorem exported_post_display (rows : list src_row) (d : dst_row) :
  In d (batch (deploy_loop rows)) ->
  (mem_text (d_era d) CLEAN_HTML_ERAS = false ->
   d_body_html d = None
   /\ get_display_html (post_of_row d) = text_tier (d_body_text d))
  /\ (forall r,
         In r rows -> d = deploy_row r ->
         mem_text (or_else (r_era r) []) CLEAN_HTML_ERAS = true ->
         get_display_html (post_of_row d)
         = get_display_html {| body_html := r_body_html r;
                               body_text := r_body_text r;
                               era := r_era r |}).
Proof.
  intros Hd. rewrite (deploy_loop_batch rows) in Hd.
  apply in_map_iff in Hd. destruct Hd as (r & <- & Hr).
  split.
  - unfold deploy_row, clean_era.
    cbn [d_era d_body_html d_body_text]. intros Hera.
    rewrite Hera. split; [reflexivity|].
    unfold get_display_html, post_of_row.
    cbn [body_html body_text era d_body_html d_body_text d_era].
    cbn [or_else truthy]. rewrite andb_false_r. reflexivity.
  - intros r' _ E Hera. rewrite E.
    unfold get_display_html, post_of_row, deploy_row, clean_era.
    cbn [body_html body_text era d_body_html d_body_text d_era].
    rewrite Hera.
    assert (Ee : or_else (Some (or_else (r_era r') [])) []
                 = or_else (r_era r') []).
    { destruct (r_era r') as [e|]; [|reflexivity].
      unfold or_else. destruct (truthy e) eqn:Te; [rewrite Te|];
        reflexivity. }
    rewrite Ee. reflexivity.
Qed.

(** ** The search *)

Lemma split_ws_go_cur (cur : text) (s : text) :
  cur <> [] -> split_ws_go cur s <> [].
Proof.
  revert cur; induction s as [|c s IH]; intros cur Hc; simpl.
  - destruct cur; [congruence | discriminate].
  - destruct (is_space c).
    + destruct cur; [congruence | discriminate].
    + apply IH. discriminate.
Qed.

Lemma split_ws_nil_blank (s : text) : split_ws s = [] <-> blank s.
Proof.
  unfold split_ws, blank. induction s as [|c s IH]; simpl.
  - split; reflexivity.
  - destruct (is_space c); simpl; [exact IH|].
    split; [|discriminate].
    intros H. exfalso. revert H. apply split_ws_go_cur. discriminate.
Qed.

Lemma forallb_rev' {A} (f : A -> bool) (l : list A) :
  forallb f (rev l) = forallb f l.
Proof.
  induction l as [|x l IH]; [reflexivity|].
  simpl. rewrite forallb_app, IH. simpl.
  rewrite andb_true_r. apply andb_comm.
Qed.

Lemma split_ws_go_words (cur : text) (s : text) :
  forallb (fun c => negb (is_space c)) cur = true ->
  Forall word (split_ws_go cur s).
Proof.
  revert cur; induction s as [|c s IH]; intros cur Hc; simpl.
  - destruct cur as [|x cur]; constructor; [|constructor].
    split.
    + intros E. apply (f_equal (@length char)) in E.
      rewrite length_rev in E. discriminate.
    + rewrite forallb_rev'. exact Hc.
  - destruct (is_space c) eqn:Ec.
    + destruct cur as [|x cur]; [apply IH; reflexivity|].
      constructor; [|apply IH; reflexivity].
      split.
      * intros E. apply (f_equal (@length char)) in E.
        rewrite length_rev in E. discriminate.
      * rewrite forallb_rev'. exact Hc.
    + apply IH. simpl. rewrite Ec. exact Hc.
Qed.

Lemma split_ws_go_word (w cur rest : text) :
  forallb (fun c => negb (is_space c)) w = true ->
  split_ws_go cur (w ++ rest) = split_ws_go (rev w ++ cur) rest.
Proof.
  revert cur; induction w as [|c w IH]; intros cur Hw; [reflexivity|].
  simpl in Hw. apply andb_true_iff in Hw. destruct Hw as [Hc Hw].
  simpl. apply negb_true_iff in Hc. rewrite Hc.
  rewrite (IH (c :: cur) Hw), <- app_assoc. reflexivity.
Qed.

Lemma split_ws_join (ws : list text) :
  Forall word ws -> split_ws (join_space ws) = ws.
Proof.
  unfold split_ws. induction 1 as [|x ws [Hne Hx] Hws IH]; [reflexivity|].
  destruct ws as [|y ws].
  - cbn [join_space]. rewrite <- (app_nil_r x) at 1.
    rewrite (split_ws_go_word x [] [] Hx), app_nil_r. simpl.
    destruct (rev x) eqn:E; [|rewrite <- E, rev_involutive; reflexivity].
    apply (f_equal (@rev char)) in E. rewrite rev_involutive in E.
    contradiction.
  - change (join_space (x :: y :: ws))
      with (x ++ 32%N :: join_space (y :: ws)).
    rewrite (split_ws_go_word x [] _ Hx), app_nil_r.
    cbn [split_ws_go]. change (is_space 32%N) with true. cbv iota.
    destruct (rev x) eqn:E.
    + apply (f_equal (@rev char)) in E. rewrite rev_involutive in E.
      contradiction.
    + rewrite <- E, rev_involutive, IH. reflexivity.
Qed.

Lemma word_quote_word (w : text) : word w -> word (quote_word w).
Proof.
  intros [_ Hw]. split; [discriminate|].
  unfold quote_word. simpl. rewrite forallb_app, Hw. reflexivity.
Qed.

Lemma filter_truthy_words (ws : list text) :
  Forall word ws -> filter truthy ws = ws.
Proof.
  induction 1 as [|x ws [Hne _] _ IH]; [reflexivity|].
  simpl. destruct x; [congruence|]. simpl. rewrite IH. reflexivity.
Qed.

Lemma has_dquote_join (ws : list text) :
  ws <> [] -> has_dquote (join_space (List.map quote_word ws)) = true.
Proof.
  destruct ws as [|x [|y ws]]; [congruence| |]; intros _; reflexivity.
Qed.

Lemma _fts_escape_quoted (q : text) :
  has_dquote q = false ->
  _fts_escape q = join_space (List.map quote_word (split_ws q)).
Proof.
  intros H. unfold _fts_escape. rewrite H.
  rewrite filter_truthy_words; [reflexivity|].
  apply split_ws_go_words. reflexivity.
Qed.

(** X10.  Escaping a query twice is escaping it once. *)
Theorem _fts_escape_idempotent (q : text) :
  _fts_escape (_fts_escape q) = _fts_escape q.
Proof.
  destruct (has_dquote q) eqn:H.
  - unfold _fts_escape at 2. rewrite H.
    unfold _fts_escape. rewrite H. reflexivity.
  - rewrite (_fts_escape_quoted q H).
    destruct (split_ws q) as [|w ws] eqn:E; [reflexivity|].
    unfold _fts_escape. rewrite has_dquote_join by discriminate.
    reflexivity.
Qed.

(** X11.  A query without a double quote is escaped word by word: splitting
    the escaped query at whitespace gives the words of the query, each
    between two double quotes and in order; the escaped query is empty
    exactly when the query is blank. *)
Theorem _fts_escape_words (q : text) :
  has_dquote q = false ->
  split_ws (_fts_escape q) = List.map quote_word (split_ws q)
  /\ (_fts_escape q = [] <-> blank q).
Proof.
  intros H. rewrite (_fts_escape_quoted q H).
  assert (Hw : Forall word (List.map quote_word (split_ws q))).
  { apply Forall_map.
    eapply Forall_impl; [|apply (split_ws_go_words [] q); reflexivity].
    intros w. apply word_quote_word. }
  split; [apply split_ws_join, Hw|].
  rewrite <- split_ws_nil_blank.
  destruct (split_ws q) as [|w [|w' ws]]; split; intros E;
    try reflexivity; try discriminate.
Qed.

Lemma truthy_join (sep x : text) (l : list text) :
  truthy x = true -> truthy (join sep (x :: l)) = true.
Proof.
  destruct x; [discriminate|]. destruct l; reflexivity.
Qed.

Lemma fts_match_truthy (t b : text) :
  truthy (fts_match t b) = truthy (strip t) || truthy (strip b).
Proof.
  unfold fts_match, fts_parts.
  destruct (truthy (strip t)); destruct (truthy (strip b)); reflexivity.
Qed.

Lemma dict_get_most_relevant :
  dict_get (py "Most relevant") sort_map (py "p.date_published DESC")
  = py "p.date_published DESC".
Proof. reflexivity. Qed.

(** X12.  The search uses the full-text index exactly when one of the two
    queries has a character that is not whitespace.  With one, the two
    statements are those with [MATCH], the match expression is bound after
    the confidence values, and the rows are ordered by rank for the sort
    [Most relevant] and as the sort says otherwise; the match expression is
    the escaped title query after [title:], the escaped body query after
    [body_text:], or both with [AND] between them.  Without one, the two
    statements are the plain ones and only the confidence values are bound;
    the sort [Most relevant] then orders by date, newest first. *)
Theorem search_posts_uses_fts (t b c s : text) (l o : Z) :
  truthy (fts_match t b) = truthy (strip t) || truthy (strip b)
  /\ (truthy (strip t) || truthy (strip b) = true ->
      search_posts_statements t b c s l o
      = ({| sql := count_fts_sql (snd (conf_filter c));
            params := List.map SqlText (fst (conf_filter c))
                        ++ [SqlText (fts_match t b)] |},
         {| sql := rows_fts_sql (snd (conf_filter c))
                     (if text_eqb s (py "Most relevant") then py "fts.rank"
                      else dict_get s sort_map (py "p.date_published DESC"));
            params := (List.map SqlText (fst (conf_filter c))
                         ++ [SqlText (fts_match t b)])
                        ++ [SqlInt l; SqlInt o] |}))
  /\ (truthy (strip t) = true -> truthy (strip b) = false ->
      fts_match t b = py "title:" ++ _fts_escape (strip t))
  /\ (truthy (strip t) = false -> truthy (strip b) = true ->
      fts_match t b = py "body_text:" ++ _fts_escape (strip b))
  /\ (truthy (strip t) = true -> truthy (strip b) = true ->
      fts_match t b
      = py "title:" ++ _fts_escape (strip t) ++ py " AND "
          ++ py "body_text:" ++ _fts_escape (strip b))
  /\ (blank t -> blank b ->
      search_posts_statements t b c s l o
      = ({| sql := count_plain_sql (snd (conf_filter c));
            params := List.map SqlText (fst (conf_filter c)) |},
         {| sql := rows_plain_sql (snd (conf_filter c))
                     (dict_get s sort_map (py "p.date_published DESC"));
            params := List.map SqlText (fst (conf_filter c))
                        ++ [SqlInt l; SqlInt o] |})
      /\ (s = py "Most relevant" ->
          sql (snd (search_posts_statements t b c s l o))
          = rows_plain_sql (snd (conf_filter c))
              (py "p.date_published DESC"))).
Proof.
  split; [apply fts_match_truthy|].
  split.
  { intros H. rewrite <- fts_match_truthy in H.
    unfold search_posts_statements.
    destruct (conf_filter c) as [cv cc]. rewrite H, andb_true_r.
    cbn [fst snd].
    destruct (text_eqb s (py "Most relevant")); reflexivity. }
  split.
  { intros Ht Hb. unfold fts_match, fts_parts. rewrite Ht, Hb.
    reflexivity. }
  split.
  { intros Ht Hb. unfold fts_match, fts_parts. rewrite Ht, Hb.
    reflexivity. }
  split.
  { intros Ht Hb. unfold fts_match, fts_parts. rewrite Ht, Hb.
    cbn [app join]. rewrite <- !app_assoc. reflexivity. }
  intros Ht Hb.
  assert (E : truthy (fts_match t b) = false).
  { rewrite fts_match_truthy.
    rewrite (proj2 (strip_nil_blank t) Ht), (proj2 (strip_nil_blank b) Hb).
    reflexivity. }
  assert (S : search_posts_statements t b c s l o
      = ({| sql := count_plain_sql (snd (conf_filter c));
            params := List.map SqlText (fst (conf_filter c)) |},
         {| sql := rows_plain_sql (snd (conf_filter c))
                     (dict_get s sort_map (py "p.date_published DESC"));
            params := List.map SqlText (fst (conf_filter c))
                        ++ [SqlInt l; SqlInt o] |})).
  { unfold search_posts_statements.
    destruct (conf_filter c) as [cv cc]. rewrite E, andb_false_r.
    reflexivity. }
  split; [exact S|].
  intros ->. rewrite S. reflexivity.
Qed.

Lemma count_char_app (c : char) (a b : text) :
  count_char c (a ++ b) = count_char c a + count_char c b.
Proof. unfold count_char. rewrite filter_app, length_app. reflexivity. Qed.

Lemma count_placeholders (n : nat) : count_char 63%N (placeholders n) = n.
Proof.
  unfold placeholders. induction n as [|n IH]; [reflexivity|].
  destruct n as [|n]; [reflexivity|].
  change (count_char 63%N ([63%N] ++ [44%N]
            ++ join [44%N]
                 (List.map (fun c => [c]) (repeat 63%N (S n)))) = S (S n)).
  rewrite !count_char_app, IH. reflexivity.
Qed.

Lemma count_template (ls : list text) :
  count_char 63%N (template ls) = list_sum (List.map (count_char 63%N) ls).
Proof.
  unfold template. rewrite !count_char_app.
  change (count_char 63%N [nl]) with 0.
  change (count_char 63%N (py "        ")) with 0.
  rewrite Nat.add_0_r, Nat.add_0_l.
  induction ls as [|x ls IH]; [reflexivity|].
  cbn [List.map concat]. rewrite !count_char_app, IH.
  change (count_char 63%N [nl]) with 0.
  unfold list_sum. cbn [fold_right]. lia.
Qed.

Lemma count_conf_filter (c : text) :
  count_char 63%N (snd (conf_filter c)) = length (fst (conf_filter c)).
Proof.
  unfold conf_filter. destruct (text_eqb c (py "all")); [reflexivity|].
  cbn [fst snd]. rewrite !count_char_app, count_placeholders.
  change (count_char 63%N (py "AND p.confidence IN (")) with 0.
  change (count_char 63%N (py ")")) with 0. lia.
Qed.

Lemma count_order (s : text) :
  count_char 63%N (dict_get s sort_map (py "p.date_published DESC")) = 0.
Proof.
  unfold sort_map. cbn [dict_get].
  repeat match goal with
         | |- context [if ?b then _ else _] => destruct b
         end; reflexivity.
Qed.

Lemma count_sql (cc order : text) :
  count_char 63%N (count_fts_sql cc) = count_char 63%N cc + 1
  /\ count_char 63%N (rows_fts_sql cc order)
     = count_char 63%N cc + count_char 63%N order + 3
  /\ count_char 63%N (count_plain_sql cc) = count_char 63%N cc
  /\ count_char 63%N (rows_plain_sql cc order)
     = count_char 63%N cc + count_char 63%N order + 2.
Proof.
  unfold count_fts_sql, rows_fts_sql, count_plain_sql, rows_plain_sql.
  rewrite !count_template. unfold list_sum. cbn [List.map fold_right].
  rewrite !count_char_app.
  repeat match goal with
         | |- context [count_char 63%N (py ?s)] =>
             let n := eval vm_compute in (count_char 63%N (py s)) in
             change (count_char 63%N (py s)) with n
         end.
  repeat split; lia.
Qed.

(** X13.  In both statements of a search the number of [?] in the text of
    the statement is the number of the values bound to it. *)
Theorem search_posts_placeholders (t b c s : text) (l o : Z) :
  count_char 63%N (sql (fst (search_posts_statements t b c s l o)))
  = length (params (fst (search_posts_statements t b c s l o)))
  /\ count_char 63%N (sql (snd (search_posts_statements t b c s l o)))
     = length (params (snd (search_posts_statements t b c s l o))).
Proof.
  unfold search_posts_statements.
  pose proof (count_conf_filter c) as Hc.
  destruct (conf_filter c) as [cv cc]. cbn [fst snd] in Hc.
  pose proof (count_order s) as Ho.
  destruct (count_sql cc (py "fts.rank")) as (R1 & R2 & _ & _).
  destruct (count_sql cc (dict_get s sort_map (py "p.date_published DESC")))
    as (F1 & F2 & P1 & P2).
  change (count_char 63%N (py "fts.rank")) with 0 in R2.
  destruct (text_eqb s (py "Most relevant") && truthy (fts_match t b));
    [|destruct (truthy (fts_match t b))];
    cbn [fst snd sql params];
    rewrite ?length_app, ?length_map; cbn [length]; split; lia.
Qed.

(** X14.  The text of the statements does not depend on the words that are
    searched, on the limit or on the offset: two searches with the same
    confidence filter and sort that both use the full-text index, or both
    do not, execute the same two texts. *)
Theorem search_posts_sql_fixed (t b t' b' c s : text) (l o l' o' : Z) :
  truthy (strip t) || truthy (strip b)
  = truthy (strip t') || truthy (strip b') ->
  sql (fst (search_posts_statements t b c s l o))
  = sql (fst (search_posts_statements t' b' c s l' o'))
  /\ sql (snd (search_posts_statements t b c s l o))
     = sql (snd (search_posts_statements t' b' c s l' o')).
Proof.
  intros H. rewrite <- !fts_match_truthy in H.
  unfold search_posts_statements.
  destruct (conf_filter c) as [cv cc]. rewrite <- H.
  destruct (text_eqb s (py "Most relevant") && truthy (fts_match t b));
    [|destruct (truthy (fts_match t b))]; split; reflexivity.
Qed.

(** ** Dates *)

Lemma text_ltb_no_date :
  text_ltb (py "2025") (py "No date") = true.
Proof. reflexivity. Qed.

(** X15.  [format_date] is idempotent.  It keeps a date that starts with a
    year from 2010 to 2024, and shows [No date] for every string that
    continues [2025], so for every date of the year 2025. *)
Theorem format_date_years (d : option text) :
  format_date (Some (format_date d)) = format_date d
  /\ (forall a b s,
         (a = 49 /\ 48 <= b <= 57 \/ a = 50 /\ 48 <= b <= 52)%N ->
         format_date (Some (py "20" ++ a :: b :: s)) = py "20" ++ a :: b :: s)
  /\ (forall s, s <> [] ->
                format_date (Some (py "2025" ++ s)) = py "No date").
Proof.
  split; [|split].
  - destruct d as [d|]; [|reflexivity].
    unfold format_date.
    destruct (negb (truthy d) || text_ltb d (py "2010")
              || text_ltb (py "2025") d) eqn:E; [reflexivity|].
    rewrite E. reflexivity.
  - intros a b s H. unfold format_date.
    change (py "20" ++ a :: b :: s) with (50%N :: 48%N :: a :: b :: s).
    change (py "2010") with [50%N; 48%N; 49%N; 48%N].
    change (py "2025") with [50%N; 48%N; 50%N; 53%N].
    cbn [truthy negb orb text_ltb].
    change (50 <? 50)%N with false. change (48 <? 48)%N with false.
    cbv iota.
    destruct H as [[-> Hb] | [-> Hb]].
    + change (49 <? 49)%N with false. change (50 <? 49)%N with false.
      change (49 <? 50)%N with true. cbv iota.
      destruct (N.ltb_spec b 48); [lia|].
      destruct (N.ltb_spec 48 b); [reflexivity|].
      destruct s; reflexivity.
    + change (50 <? 49)%N with false. change (49 <? 50)%N with true.
      change (50 <? 50)%N with false. cbv iota.
      destruct (N.ltb_spec 53 b); [lia|].
      destruct (N.ltb_spec b 53); [reflexivity | lia].
  - intros s Hs. destruct s as [|c s]; [congruence|]. reflexivity.
Qed.

(** ** Pages *)

Lemma total_pages_div (total pp : Z) :
  (0 < pp)%Z -> (0 <= total)%Z ->
  exists q r, ((total + pp - 1) / pp = q /\ total + pp - 1 = pp * q + r
               /\ 0 <= r < pp /\ 0 <= q)%Z.
Proof.
  intros Hp Ht.
  exists ((total + pp - 1) / pp)%Z, ((total + pp - 1) mod pp)%Z.
  split; [reflexivity|]. split; [apply Z.div_mod; lia|].
  split; [apply Z.mod_pos_bound; lia|].
  apply Z.div_pos; lia.
Qed.

(** X16.  With a positive page size and a count that is not negative, there
    is at least one page, the pages hold all the posts, the last page is
    not empty when there is a post, and the button [Next] is offered on a
    page exactly when there are posts after those of the page. *)
Theorem total_pages_bounds (total pp : Z) :
  (0 < pp)%Z -> (0 <= total)%Z ->
  (1 <= total_pages total pp)%Z
  /\ (total <= total_pages total pp * pp)%Z
  /\ ((0 < total)%Z -> ((total_pages total pp - 1) * pp < total)%Z)
  /\ (forall page, (0 <= page)%Z ->
        ((page <? total_pages total pp - 1)%Z = true
         <-> ((page + 1) * pp < total)%Z)).
Proof.
  intros Hp Ht. unfold total_pages.
  destruct (total_pages_div total pp Hp Ht) as (q & r & -> & E & Hr & Hq).
  split; [lia|]. split; [|split].
  - destruct (Z.max_spec 1 q) as [[Hm ->] | [Hm ->]]; nia.
  - intros H0. destruct (Z.max_spec 1 q) as [[Hm ->] | [Hm ->]]; nia.
  - intros page Hpage. rewrite Z.ltb_lt.
    destruct (Z.max_spec 1 q) as [[Hm ->] | [Hm ->]]; split; intros H; nia.
Qed.

Lemma current_page_nonneg (st : session) (w : widgets) :
  (0 <= page_of st)%Z -> (0 <= current_page st w)%Z.
Proof.
  unfold current_page, page_of. intros H.
  destruct (text_eqb _ _); [exact H | lia].
Qed.

(** X17.  One run of [main] keeps the page number from going below zero.
    In the list view it records the search key, moves the page by at most
    one, never beyond the last page with [Next], and opens only a post of
    the page shown; when the search key has changed the run is that of the
    session at page 0. *)
Theorem main_run_page_bounds
  (found : text -> text -> text -> text -> Z -> Z -> Z * list Z)
  (st : session) (w : widgets) (ev : click) :
  (0 <= page_of st)%Z ->
  (0 <= page_of (main_run found st w ev))%Z
  /\ page (main_run found st w ev)
     = Some (page_of (main_run found st w ev))
  /\ (viewing_post st = None ->
      let p := current_page st w in
      let res := found (title_search w) (body_search w)
                   (confidence_filter w) (sort_order w) (per_page w)
                   (p * per_page w)%Z in
      last_search_key (main_run found st w ev) = Some (search_key w)
      /\ (p - 1 <= page_of (main_run found st w ev) <= p + 1)%Z
      /\ (page_of (main_run found st w ev)
          <= Z.max p (total_pages (fst res) (per_page w) - 1))%Z
      /\ (forall id, viewing_post (main_run found st w ev) = Some id ->
                     In id (snd res)))
  /\ (forall k, viewing_post st = None ->
                last_search_key st = Some k -> k <> search_key w ->
                main_run found st w ev
                = main_run found
                    {| viewing_post := None; page := Some 0%Z;
                       last_search_key := last_search_key st |} w ev).
Proof.
  intros H0. pose proof (current_page_nonneg st w H0) as Hp.
  split; [|split; [|split]].
  - unfold main_run. destruct (viewing_post st); [exact H0|].
    destruct (found _ _ _ _ _ _) as [total posts].
    destruct posts as [|x posts]; [exact Hp|].
    destruct ev; try exact Hp.
    + destruct (existsb _ _); exact Hp.
    + destruct (Z.ltb_spec 0 (current_page st w)); [|exact Hp].
      unfold page_of; cbn [page]. lia.
    + destruct (_ <? _)%Z; [|exact Hp]. unfold page_of; cbn [page]. lia.
  - unfold main_run. destruct (viewing_post st); [reflexivity|].
    destruct (found _ _ _ _ _ _) as [total posts].
    destruct posts as [|x posts]; [reflexivity|].
    destruct ev; try reflexivity.
    + destruct (existsb _ _); reflexivity.
    + destruct (_ <? _)%Z; reflexivity.
    + destruct (_ <? _)%Z; reflexivity.
  - intros Hv. cbv zeta. unfold main_run. rewrite Hv.
    destruct (found _ _ _ _ _ _) as [total posts]. cbn [fst snd].
    destruct posts as [|x posts].
    { unfold page_of; cbn [page last_search_key viewing_post].
      split; [reflexivity|]. split; [lia|]. split; [lia|].
      intros id; discriminate. }
    destruct ev.
    + unfold page_of; cbn [page last_search_key viewing_post].
      split; [reflexivity|]. split; [lia|]. split; [lia|].
      intros id; discriminate.
    + unfold page_of; cbn [page last_search_key viewing_post].
      split; [reflexivity|]. split; [lia|]. split; [lia|].
      intros id; discriminate.
    + destruct (existsb (Z.eqb id) (x :: posts)) eqn:Ex;
        unfold page_of; cbn [page last_search_key viewing_post];
        (split; [reflexivity|]; split; [lia|]; split; [lia|]);
        intros id'; [|discriminate].
      intros E; inversion E; subst id'.
      apply existsb_exists in Ex. destruct Ex as (y & Hy & Ey).
      apply Z.eqb_eq in Ey. subst y. exact Hy.
    + destruct (0 <? current_page st w)%Z;
        unfold page_of; cbn [page last_search_key viewing_post];
        (split; [reflexivity|]; split; [lia|]; split; [lia|]);
        intros id; discriminate.
    + destruct (Z.ltb_spec (current_page st w)
                  (total_pages total (per_page w) - 1));
        unfold page_of; cbn [page last_search_key viewing_post];
        (split; [reflexivity|]; split; [lia|]; split; [lia|]);
        intros id; discriminate.
  - intros k Hv Hk Hne. unfold main_run. rewrite Hv.
    cbn [viewing_post page last_search_key].
    assert (E : current_page st w = 0%Z).
    { unfold current_page. rewrite Hk.
      destruct (text_eqb k (search_key w)) eqn:Ek; [|reflexivity].
      apply text_eqb_eq in Ek. contradiction. }
    assert (E' : current_page
                   {| viewing_post := None; page := Some 0%Z;
                      last_search_key := last_search_key st |} w = 0%Z).
    { unfold current_page. cbn [page last_search_key].
      destruct (text_eqb _ _); reflexivity. }
    rewrite E, E'. reflexivity.
Qed.

End Pipeline.

(** * Witnesses and counterexamples *)

(** The example of C2: no match of the first pattern, and the second
    pattern first matches at offset 19. *)
Lemma cut_loop_priority_order_witness :
  cut_loop ascii_only ascii_only ascii_caseless cut_patterns example_share
  = rstrip (firstn 19 example_share).
Proof.
  assert (Hs : search ascii_only ascii_only ascii_caseless no_flags
                 (nth 1 cut_patterns []) example_share
               = Some (19, [nl] ++ py "user1: nice post"))
    by (vm_compute; reflexivity).
  destruct (search_from_some _ _ _ _ _ _ _ _ _ Hs) as (m & Em & Hm & Hless).
  simpl in Em; subst m.
  apply (proj1 (cut_loop_priority_order ascii_only ascii_only ascii_caseless)
           example_share 1 (nth 1 cut_patterns []) 19
           ([nl] ++ py "user1: nice post")).
  - reflexivity.
  - intros j q Hj Hq. assert (j = 0) by lia; subst j.
    inversion Hq; subst q.
    apply search_from_none with (i := 0). vm_compute; reflexivity.
  - exact Hm.
  - exact Hless.
Defined.

(** The example of C2, cleaned once, has no marker left. *)
Lemma clean_body_text_fixed_point_witness :
  clean_body_text ascii_only ascii_only ascii_caseless
    (clean_body_text ascii_only ascii_only ascii_caseless (Some example_share))
  = clean_body_text ascii_only ascii_only ascii_caseless (Some example_share).
Proof.
  apply clean_body_text_fixed_point.
  - repeat constructor; vm_compute; reflexivity.
  - vm_compute; reflexivity.
  - vm_compute; reflexivity.
Defined.

(** Two paragraphs, the first of two lines, and two lines, split back into
    themselves. *)
Lemma text_tier_paragraphs_witness :
  split_paragraphs
    (join [nl; nl]
       [py "First line" ++ [nl] ++ py "second line"; py "Second one."])
  = [py "First line" ++ [nl] ++ py "second line"; py "Second one."]
  /\ split_paragraphs (join [nl] [py "Line one"; py "Line two"])
     = [py "Line one"; py "Line two"].
Proof.
  pose proof (text_tier_paragraphs ascii_only ascii_only ascii_caseless)
    as (_ & _ & Hpar & Hlines & _).
  split.
  - apply Hpar; [simpl; lia|].
    constructor; [reflexivity|]. constructor; [reflexivity|]. constructor.
  - apply Hlines; [discriminate | | reflexivity].
    repeat constructor; intros E; discriminate E.
Defined.

(** The pre-clean example of the specification. *)
Lemma get_display_html_preclean_witness :
  get_display_html ascii_only ascii_only ascii_caseless no_list_repr
    text_only_parse text_only_decode hello_post
  = py "<p>Hello</p>".
Proof.
  apply get_display_html_preclean; reflexivity.
Defined.

(** A plain text of 56 characters is above the threshold. *)
Lemma sanitize_html_threshold_witness :
  sanitize_html ascii_only ascii_only ascii_caseless no_list_repr
    text_only_parse text_only_decode long_plain_text
  = Some long_plain_text.
Proof.
  refine (proj1 (proj2
            (sanitize_html_threshold ascii_only ascii_only ascii_caseless
               no_list_repr text_only_parse text_only_decode
               long_plain_text [Str tt SPlain long_plain_text]
               long_plain_text eq_refl eq_refl eq_refl)) _).
  apply Nat.ltb_lt. vm_compute; reflexivity.
Defined.

(** A padded text, with the library that writes a newline after a document
    type declaration: what is returned is read back as it was written. *)
Lemma sanitize_html_idempotent_witness :
  sanitize_html ascii_only ascii_only ascii_caseless no_list_repr
    doctype_parse doctype_decode ([32%N; 32%N] ++ long_plain_text ++ [nl])
  = Some long_plain_text
  /\ sanitize_html ascii_only ascii_only ascii_caseless no_list_repr
       doctype_parse doctype_decode long_plain_text
     = Some long_plain_text.
Proof.
  assert (Hx : sanitize_html ascii_only ascii_only ascii_caseless
                 no_list_repr doctype_parse doctype_decode
                 ([32%N; 32%N] ++ long_plain_text ++ [nl])
               = Some long_plain_text) by (vm_compute; reflexivity).
  split; [exact Hx|].
  apply (proj2
           (sanitize_html_idempotent ascii_only ascii_only ascii_caseless
              no_list_repr doctype_parse doctype_decode)
           ([32%N; 32%N] ++ long_plain_text ++ [nl]) long_plain_text Hx).
  intros _.
  exists [Str tt SPlain long_plain_text], long_plain_text.
  split; [vm_compute; reflexivity|].
  split; [intros h [<- | []]; simpl; discriminate|].
  split; vm_compute; reflexivity.
Defined.

(** The fallback example of the specification. *)
Lemma get_display_html_fallback_witness :
  get_display_html ascii_only ascii_only ascii_caseless no_list_repr
    banner_parse text_only_decode (ad_banner_post None)
  = py "<p>Real article content here.</p>".
Proof.
  apply (proj2 (proj2
           (get_display_html_fallback ascii_only ascii_only ascii_caseless
              no_list_repr banner_parse text_only_decode)));
    reflexivity.
Defined.

(** C5, as the specification states it, fails: the text cleaned once is cut
    again by a second application when a marker later in the list stands
    before the marker that was cut at.  The first application cuts at
    "Top 5 Comments" and leaves "Leave a Comment"; the second cuts that. *)
Lemma clean_body_text_not_idempotent :
  (forall uw ud uc,
      clean_body_text uw ud uc (Some example_two_markers)
      = Some (py "Leave a Comment"))
  /\ (forall uw ud uc,
         clean_body_text uw ud uc
           (clean_body_text uw ud uc (Some example_two_markers))
         = Some []).
Proof. split; intros uw ud uc; vm_compute; reflexivity. Qed.

(** C4, as the specification states it, fails where the library does not
    read back what it wrote: a document type declaration is written with a
    newline after it, the next pass reads that newline as text, and so every
    pass adds a newline. *)
Lemma sanitize_html_not_idempotent :
  (forall uw ud uc sl,
      sanitize_html uw ud uc sl doctype_parse doctype_decode
        (doctype_html ++ long_plain_text)
      = Some (doctype_html ++ [nl] ++ long_plain_text))
  /\ (forall uw ud uc sl,
         sanitize_html uw ud uc sl doctype_parse doctype_decode
           (doctype_html ++ [nl] ++ long_plain_text)
         = Some (doctype_html ++ [nl; nl] ++ long_plain_text)).
Proof. split; intros uw ud uc sl; vm_compute; reflexivity. Qed.



(** C8, as the specification states it, fails: the segments are trimmed
    before they are escaped, which escaping each segment as it stands does
    not do. *)
Lemma text_tier_trims_segments :
  (forall uw ud uc,
      text_tier uw ud uc (Some untrimmed_text) = py "<p>a</p><p>b</p>")
  /\ (forall uw ud uc,
         render_paragraphs_untrimmed
           (split_paragraphs (clean_body_str uw ud uc untrimmed_text))
         = py "<p>a </p><p> b</p>").
Proof. split; intros uw ud uc; vm_compute; reflexivity. Qed.

(** A padded text without a marker is trimmed. *)
Lemma clean_body_text_without_markers_witness :
  clean_body_text ascii_only ascii_only ascii_caseless (Some example_padded)
  = Some (strip example_padded).
Proof.
  apply clean_body_text_without_markers.
  - repeat constructor; vm_compute; reflexivity.
  - vm_compute; reflexivity.
  - vm_compute; reflexivity.
Defined.

(** The example of C2, cleaned, is trimmed. *)
Lemma clean_body_text_trimmed_witness :
  lstrip (py "Great game today.") = py "Great game today."
  /\ rstrip (py "Great game today.") = py "Great game today."
  /\ strip (py "Great game today.") = py "Great game today.".
Proof.
  apply (clean_body_text_trimmed ascii_only ascii_only ascii_caseless
           (Some example_share)).
  vm_compute; reflexivity.
Defined.

(** The post of the fallback example is not displayed as the empty
    string. *)
Lemma text_tier_empty_iff_witness :
  get_display_html ascii_only ascii_only ascii_caseless no_list_repr
    banner_parse text_only_decode (ad_banner_post None)
  <> [].
Proof.
  apply (proj2 (text_tier_empty_iff ascii_only ascii_only ascii_caseless
                  no_list_repr banner_parse text_only_decode None)).
  vm_compute; discriminate.
Defined.

(** The wrapped example keeps its two strings. *)
Lemma sanitize_tree_keeps_text_witness :
  texts (sanitize_tree ascii_only ascii_only ascii_caseless no_list_repr
           example_wrapped)
  = [(SPlain, py "a"); (SPlain, py "b")].
Proof.
  apply (proj2 (sanitize_tree_keeps_text ascii_only ascii_only
                  ascii_caseless no_list_repr example_wrapped)).
  intros h Hh.
  repeat (destruct Hh as [<- | Hh];
          [vm_compute; split; [reflexivity | split; reflexivity]|]).
  destruct Hh.
Defined.

(** The exported example row is displayed from its body text. *)
Lemma exported_post_display_witness :
  d_body_html (deploy_row example_row) = None
  /\ get_display_html ascii_only ascii_only ascii_caseless no_list_repr
       text_only_parse text_only_decode (post_of_row (deploy_row example_row))
     = text_tier ascii_only ascii_only ascii_caseless
         (d_body_text (deploy_row example_row)).
Proof.
  apply (proj1 (exported_post_display ascii_only ascii_only ascii_caseless
                  no_list_repr text_only_parse text_only_decode
                  [example_row] (deploy_row example_row)
                  (or_introl eq_refl))).
  reflexivity.
Defined.

(** Two words with two spaces between them. *)
Lemma _fts_escape_words_witness :
  split_ws (_fts_escape (py "red  sox"))
  = List.map quote_word (split_ws (py "red  sox"))
  /\ (_fts_escape (py "red  sox") = [] <-> blank (py "red  sox")).
Proof. apply _fts_escape_words. reflexivity. Defined.

(** A title search sorted by relevance binds the quoted words and orders
    by rank; a blank search sorted by relevance is ordered by date. *)
Lemma search_posts_uses_fts_witness :
  search_posts_statements (py " red sox") [] (py "all")
    (py "Most relevant") 50 0
  = ({| sql := count_fts_sql [];
        params := [SqlText (py "title:" ++ quote_word (py "red") ++ [32%N]
                              ++ quote_word (py "sox"))] |},
     {| sql := rows_fts_sql [] (py "fts.rank");
        params := [SqlText (py "title:" ++ quote_word (py "red") ++ [32%N]
                              ++ quote_word (py "sox"));
                   SqlInt 50; SqlInt 0] |})
  /\ sql (snd (search_posts_statements [32%N] [] (py "high,medium")
                 (py "Most relevant") 50 0))
     = rows_plain_sql (snd (conf_filter (py "high,medium")))
         (py "p.date_published DESC").
Proof.
  split.
  - rewrite (proj1 (proj2 (search_posts_uses_fts (py " red sox") []
                             (py "all") (py "Most relevant") 50 0))
               eq_refl).
    reflexivity.
  - destruct (search_posts_uses_fts [32%N] [] (py "high,medium")
                (py "Most relevant") 50 0)
      as (_ & _ & _ & _ & _ & Hblank).
    destruct (Hblank eq_refl eq_refl) as [_ Hrel].
    apply Hrel. reflexivity.
Defined.

(** A title search and a body search execute the same texts. *)
Lemma search_posts_sql_fixed_witness :
  sql (fst (search_posts_statements (py "red sox") [] (py "high")
              (py "Newest first") 50 0))
  = sql (fst (search_posts_statements [] (py "mookie") (py "high")
                (py "Newest first") 25 75))
  /\ sql (snd (search_posts_statements (py "red sox") [] (py "high")
                 (py "Newest first") 50 0))
     = sql (snd (search_posts_statements [] (py "mookie") (py "high")
                   (py "Newest first") 25 75)).
Proof. apply search_posts_sql_fixed. reflexivity. Defined.

(** A date of 2014 and a date of 2025. *)
Lemma format_date_years_witness :
  format_date (Some (py "2014-11-24")) = py "2014-11-24"
  /\ format_date (Some (py "2025-03-01")) = py "No date".
Proof.
  destruct (format_date_years None) as (_ & Hkeep & Hdrop).
  split.
  - apply (Hkeep 49%N 52%N (py "-11-24")). left.
    split; [reflexivity | split; intros E; discriminate E].
  - apply (Hdrop (py "-03-01")). discriminate.
Defined.

(** 101 posts on pages of 50. *)
Lemma total_pages_bounds_witness :
  (1 <= total_pages 101 50)%Z
  /\ (101 <= total_pages 101 50 * 50)%Z
  /\ ((0 < 101)%Z -> ((total_pages 101 50 - 1) * 50 < 101)%Z)
  /\ (forall page, (0 <= page)%Z ->
        ((page <? total_pages 101 50 - 1)%Z = true
         <-> ((page + 1) * 50 < 101)%Z)).
Proof. apply total_pages_bounds; lia. Defined.

(** [Next] on the second of three pages. *)
Lemma main_run_page_bounds_witness :
  (0 <= page_of (main_run example_found example_session example_widgets
                   ClickNext))%Z
  /\ page (main_run example_found example_session example_widgets ClickNext)
     = Some (page_of (main_run example_found example_session example_widgets
                        ClickNext)).
Proof.
  assert (H : (0 <= page_of example_session)%Z)
    by (unfold page_of, example_session; simpl; lia).
  destruct (main_run_page_bounds example_found example_session
              example_widgets ClickNext H) as (H1 & H2 & _).
  split; [exact H1 | exact H2].
Defined.
